(** * File staging and browsing: FileUpload.tsx and FileManager.tsx

    A shallow embedding of the two React components that carry the
    behaviour of the repository: the upload component (validation,
    preview generation, simulated upload progress, batch staging) and the
    file manager (category classifier, search/filter/sort query,
    multi-selection, delete and download handlers). Around them: the
    chat input that hosts the upload component, the file analysis of the
    chatbot, and the earlier version of the upload component.

    Conventions of the embedding.
    - JavaScript numbers that hold byte counts and millisecond time stamps
      are integers ([Z]); the upload progress, which accumulates
      [Math.random() * 15], is a rational ([Q]).
    - React state is passed explicitly; [setX (prev => e)] is the function
      [prev => e] applied to the current state.
    - Calls that leave the component (toasts, the callbacks received as
      props) are recorded in a log, in the order in which they are made.
    - A promise that is awaited is a value of [Promise]: it is either
      resolved with a value or stays pending for ever.
    - Sources of non-determinism are inputs: the draws of [Math.random],
      the readings of the clock by [new Date()], the identifiers built
      from [Date.now()] and [Math.random()], the outcome of a
      [FileReader] read, and the order in which interval timers fire. *)

From Stdlib Require Import List String Ascii ZArith QArith Bool Arith Lia Lqa.
From Stdlib Require Import Permutation Sorted DecimalString.
Import ListNotations.

Open Scope string_scope.
Open Scope Z_scope.
Open Scope list_scope.

(** ** The parts of the JavaScript library the components call *)

Module JS.

(** [s.startsWith(p)] *)
Definition startsWith (s p : string) : bool := String.prefix p s.

(** [s.includes(sub)]: [sub] occurs in [s] at some position. *)
Fixpoint includes (s sub : string) : bool :=
  String.prefix sub s
  || match s with
     | EmptyString => false
     | String _ s' => includes s' sub
     end.

(** [String.prototype.toLowerCase] does not depend on the locale. The
    strings of the embedding are byte strings, so the conversion is the
    one of the ASCII range; every other byte is kept. *)
Definition lowerChar (c : ascii) : ascii :=
  let n := nat_of_ascii c in
  if ((65 <=? n)%nat && (n <=? 90)%nat)%bool then ascii_of_nat (n + 32) else c.

Fixpoint toLowerCase (s : string) : string :=
  match s with
  | EmptyString => EmptyString
  | String c s' => String (lowerChar c) (toLowerCase s')
  end.

(** [`${n}`] for an integral number [n]. *)
Definition numberToString (n : Z) : string :=
  NilZero.string_of_int (Z.to_int n).

(** [xs.includes(x)] on an array of strings. *)
Definition arrayIncludes (xs : list string) (x : string) : bool :=
  existsb (String.eqb x) xs.

(** The argument of [toast(...)] from [@/hooks/use-toast]. *)
Record Toast := mkToast {
  title : string;
  description : string;
  variant : option string
}.

(** The icons of [lucide-react] that the components choose between. *)
Inductive Icon :=
| FileImageIcon | VideoIcon | MusicIcon | FileTextIcon | ArchiveIcon
| FileIcon | ImageIcon | PaperclipIcon.

(** [String.prototype.trim] removes white space and line terminators at
    both ends. The strings of the embedding are byte strings: the white
    space of the ASCII range is the tab, line feed, vertical tab, form
    feed, carriage return and space. *)
Definition isWhiteSpace (c : ascii) : bool :=
  let n := nat_of_ascii c in
  (((9 <=? n)%nat && (n <=? 13)%nat) || (n =? 32)%nat)%bool.

Fixpoint trimStart (s : string) : string :=
  match s with
  | EmptyString => EmptyString
  | String c s' => if isWhiteSpace c then trimStart s' else s
  end.

Fixpoint trimEnd (s : string) : string :=
  match s with
  | EmptyString => EmptyString
  | String c s' =>
      match trimEnd s' with
      | EmptyString => if isWhiteSpace c then EmptyString
                       else String c EmptyString
      | t => String c t
      end
  end.

Definition trim (s : string) : string := trimEnd (trimStart s).

(** A string in a condition: the empty string is false. *)
Definition truthy (s : string) : bool :=
  match s with
  | EmptyString => false
  | String _ _ => true
  end.

(** A promise as seen by the code that awaits it. Nothing in the two
    components rejects a promise. *)
Inductive Promise (A : Type) : Type :=
| Resolved (a : A)
| Pending.
Arguments Resolved {A} a.
Arguments Pending {A}.

End JS.

(** ** FileManager.tsx *)

Module FileManager.

Inductive Status := uploading | completed | error.

(** [interface FileWithProgress extends File] of FileManager.tsx. The
    fields [name], [size] and [type] are those of the DOM [File];
    [uploadDate] holds [getTime()] of the date. *)
Record FileWithProgress := mkFile {
  name : string;
  size : Z;
  type : string;
  id : string;
  progress : Q;
  preview : option string;
  status : Status;
  category : option string;
  tags : option (list string);
  uploadDate : option Z
}.

Inductive ViewMode := grid | list_view.
Inductive SortBy := by_name | by_size | by_date.
Inductive SortOrder := asc | desc.

(** The [useState] cells of the component. *)
Record State := mkState {
  searchTerm : string;
  viewMode : ViewMode;
  sortBy : SortBy;
  sortOrder : SortOrder;
  filterType : string;
  selectedFiles : list string
}.

(** [useState] initial values. *)
Definition initialState : State :=
  mkState "" grid by_name asc "all" [].

(** [getFileCategory] *)
Definition getFileCategory (file : FileWithProgress) : string :=
  let type := type file in
  if JS.startsWith type "image/" then "image"
  else if JS.startsWith type "video/" then "video"
  else if JS.startsWith type "audio/" then "audio"
  else if JS.includes type "pdf" then "pdf"
  else if JS.includes type "doc" then "document"
  else if JS.includes type "zip" || JS.includes type "rar" then "archive"
  else "other".

Definition fileTypes : list string :=
  ["all"; "image"; "video"; "audio"; "pdf"; "document"; "archive"; "other"].

(** *** The clock

    [new Date()] inside the comparator reads the clock. A computation
    that reads the clock is a function of the clock and of the number of
    readings made so far. *)
Definition Clock := nat -> Z.
Definition M (A : Type) : Type := Clock -> nat -> A * nat.

Definition ret {A} (a : A) : M A := fun _ k => (a, k).
Definition bind {A B} (m : M A) (f : A -> M B) : M B :=
  fun clock k => let (a, k') := m clock k in f a clock k'.
Definition newDate : M Z := fun clock k => (clock k, S k).
Definition run {A} (m : M A) (clock : Clock) : A := fst (m clock 0%nat).

Notation "x <- c1 ;; c2" := (bind c1 (fun x => c2))
  (at level 61, c1 at next level, right associativity).

(** [(d || new Date()).getTime()] *)
Definition getTimeOrNow (d : option Z) : M Z :=
  match d with
  | Some t => ret t
  | None => newDate
  end.

Section Query.

(** [String.prototype.localeCompare] depends on the locale of the
    host; the query is stated for any of them. *)
Variable localeCompare : string -> string -> Z.

(** The body of the [switch (sortBy)]. *)
Definition comparison (by_ : SortBy) (a b : FileWithProgress) : M Z :=
  match by_ with
  | by_name => ret (localeCompare (name a) (name b))
  | by_size => ret (size a - size b)
  | by_date =>
      ta <- getTimeOrNow (uploadDate a) ;;
      tb <- getTimeOrNow (uploadDate b) ;;
      ret (ta - tb)
  end.

(** The function passed to [.sort]. *)
Definition compareFn (by_ : SortBy) (order : SortOrder)
           (a b : FileWithProgress) : M Z :=
  c <- comparison by_ a b ;;
  ret (match order with asc => c | desc => - c end).

(** The predicate passed to [.filter]. *)
Definition matchesSearch (st : State) (file : FileWithProgress) : bool :=
  JS.includes (JS.toLowerCase (name file)) (JS.toLowerCase (searchTerm st)).

Definition matchesFilter (st : State) (file : FileWithProgress) : bool :=
  String.eqb (filterType st) "all"
  || String.eqb (getFileCategory file) (filterType st).

Definition keep (st : State) (file : FileWithProgress) : bool :=
  matchesSearch st file && matchesFilter st file.

(** [Array.prototype.sort] is stable (ECMAScript 2019), and for a
    consistent comparison function its result is the one stable
    arrangement of the array; it is embedded as the stable insertion
    sort, which calls the comparison function as [cmp x y] with [x]
    the element that comes first in the array. *)
Fixpoint insertM {A} (cmp : A -> A -> M Z) (x : A) (l : list A)
  : M (list A) :=
  match l with
  | [] => ret [x]
  | y :: l' =>
      c <- cmp x y ;;
      if c <=? 0 then ret (x :: y :: l')
      else (r <- insertM cmp x l' ;; ret (y :: r))
  end.

Fixpoint sortM {A} (cmp : A -> A -> M Z) (l : list A) : M (list A) :=
  match l with
  | [] => ret []
  | x :: l' => s <- sortM cmp l' ;; insertM cmp x s
  end.

(** [filteredAndSortedFiles] *)
Definition filteredAndSortedFiles (files : list FileWithProgress)
           (st : State) : M (list FileWithProgress) :=
  sortM (compareFn (sortBy st) (sortOrder st)) (filter (keep st) files).

(** [filteredAndSortedFiles.reduce((acc, file) => acc + file.size, 0)] *)
Definition totalSize (view : list FileWithProgress) : Z :=
  fold_left (fun acc file => acc + size file) view 0.

End Query.

(** The answers of a comparison function on the elements of [l] do not
    depend on the clock. *)
Definition clockFree {A} (cmp : A -> A -> M Z) (l : list A) : Prop :=
  forall x y, In x l -> In y l ->
    forall c1 k1 c2 k2, fst (cmp x y c1 k1) = fst (cmp x y c2 k2).

(** The stable insertion sort for a comparison function that does not
    read the clock. *)
Fixpoint insertPure {A} (f : A -> A -> Z) (x : A) (l : list A) : list A :=
  match l with
  | [] => [x]
  | y :: l' => if f x y <=? 0 then x :: y :: l' else y :: insertPure f x l'
  end.

Fixpoint sortPure {A} (f : A -> A -> Z) (l : list A) : list A :=
  match l with
  | [] => []
  | x :: l' => insertPure f x (sortPure f l')
  end.

(** The comparison by a numeric key, as the comparator computes it for
    the size in ascending and in descending order, and the strict order
    of the keys. *)
Definition ascending {A} (key : A -> Z) (x y : A) : Z := key x - key y.
Definition descending {A} (key : A -> Z) (x y : A) : Z := - (key x - key y).
Definition keyBelow {A} (key : A -> Z) (x y : A) : Prop := key x < key y.

(** The sum of the sizes of a list of records. *)
Definition sumSizes (l : list FileWithProgress) : Z :=
  fold_right Z.add 0 (map size l).

(** *** Handlers *)

(** The props other than [files]: which callbacks the host passed, and
    [allowMultiSelect]. *)
Record Props := mkProps {
  hasOnFileSelect : bool;
  hasOnFileDelete : bool;
  hasOnFileDownload : bool;
  allowMultiSelect : bool
}.

(** What a handler does outside the component, in order. *)
Inductive Call :=
| StopPropagation
| OnFileSelect (file : FileWithProgress)
| OnFileDelete (fileId : string)
| OnFileDownload (file : FileWithProgress)
| ToastCall (t : JS.Toast).

(** [cb?.(x)] *)
Definition optionalCall (provided : bool) (c : Call) : list Call :=
  if provided then [c] else [].

Definition setSelectedFiles (f : list string -> list string) (st : State)
  : State :=
  mkState (searchTerm st) (viewMode st) (sortBy st) (sortOrder st)
          (filterType st) (f (selectedFiles st)).

(** [handleFileClick] *)
Definition handleFileClick (props : Props) (st : State)
           (file : FileWithProgress) : State * list Call :=
  let st' :=
    if allowMultiSelect props then
      setSelectedFiles
        (fun prev =>
           if JS.arrayIncludes prev (id file)
           then filter (fun id' => negb (String.eqb id' (id file))) prev
           else prev ++ [id file])
        st
    else st in
  (st', optionalCall (hasOnFileSelect props) (OnFileSelect file)).

(** [handleDelete] *)
Definition handleDelete (props : Props) (st : State) (fileId : string)
  : State * list Call :=
  (st,
   [StopPropagation]
     ++ optionalCall (hasOnFileDelete props) (OnFileDelete fileId)
     ++ [ToastCall (JS.mkToast "File deleted"
                               "File has been removed from storage" None)]).

(** [handleDownload] *)
Definition handleDownload (props : Props) (st : State)
           (file : FileWithProgress) : State * list Call :=
  (st,
   [StopPropagation]
     ++ optionalCall (hasOnFileDownload props) (OnFileDownload file)
     ++ [ToastCall (JS.mkToast "Download started"
                               ("Downloading " ++ name file ++ "...")%string
                               None)]).

(** [toggleSort] *)
Definition toggleSort (st : State) : State :=
  mkState (searchTerm st) (viewMode st) (sortBy st)
          (match sortOrder st with asc => desc | desc => asc end)
          (filterType st) (selectedFiles st).

(** The controls of the header: each sets one [useState] cell. *)
Inductive Control :=
| SetSearchTerm (s : string)
| SetFilterType (s : string)
| SetSortBy (b : SortBy)
| ToggleSort
| SetViewMode (v : ViewMode).

Definition control (c : Control) (st : State) : State :=
  match c with
  | SetSearchTerm s =>
      mkState s (viewMode st) (sortBy st) (sortOrder st) (filterType st)
              (selectedFiles st)
  | SetFilterType s =>
      mkState (searchTerm st) (viewMode st) (sortBy st) (sortOrder st) s
              (selectedFiles st)
  | SetSortBy b =>
      mkState (searchTerm st) (viewMode st) b (sortOrder st) (filterType st)
              (selectedFiles st)
  | ToggleSort => toggleSort st
  | SetViewMode v =>
      mkState (searchTerm st) v (sortBy st) (sortOrder st) (filterType st)
              (selectedFiles st)
  end.

(** [getFileIcon] of FileManager.tsx *)
Definition getFileIcon (file : FileWithProgress) : JS.Icon :=
  let type := type file in
  if JS.startsWith type "image/" then JS.FileImageIcon
  else if JS.startsWith type "video/" then JS.VideoIcon
  else if JS.startsWith type "audio/" then JS.MusicIcon
  else if JS.includes type "pdf" then JS.FileTextIcon
  else if JS.includes type "zip" || JS.includes type "rar"
       then JS.ArchiveIcon
  else JS.FileIcon.

(** The categories offered by the filter control, without "all". *)
Definition categories : list string := tl fileTypes.

(** What the user can do in the file manager, and the handler each
    action runs. *)
Inductive UserAction :=
| Click (file : FileWithProgress)
| Delete (fileId : string)
| Download (file : FileWithProgress)
| Change (c : Control).

Definition act (props : Props) (st : State) (a : UserAction)
  : State * list Call :=
  match a with
  | Click file => handleFileClick props st file
  | Delete fileId => handleDelete props st fileId
  | Download file => handleDownload props st file
  | Change c => (control c st, [])
  end.

Fixpoint actAll (props : Props) (st : State) (actions : list UserAction)
  : State * list Call :=
  match actions with
  | [] => (st, [])
  | a :: rest =>
      let (st', cs) := act props st a in
      let (st'', cs') := actAll props st' rest in
      (st'', cs ++ cs')
  end.

(** The identifiers of the records that the actions click. *)
Fixpoint clickedIds (actions : list UserAction) : list string :=
  match actions with
  | [] => []
  | Click file :: rest => id file :: clickedIds rest
  | _ :: rest => clickedIds rest
  end.

(** The time stamp of a dated record. *)
Definition dateKey (file : FileWithProgress) : Z :=
  match uploadDate file with
  | Some t => t
  | None => 0
  end.

(** *** Sample data *)

(** A record of a file that has been uploaded, with the given
    identifier, name, size, mime type and upload date. *)
Definition sample (id_ name_ : string) (size_ : Z) (type_ : string)
           (date : option Z) : FileWithProgress :=
  mkFile name_ size_ type_ id_ 100%Q None completed None None date.

Definition report_pdf := sample "1" "report.pdf" 2048 "application/pdf" None.
Definition photo_png := sample "2" "photo.png" 4096 "image/png" None.
(** The mime type of a .docx file. *)
Definition docxMime : string :=
  "application/vnd.openxmlformats-officedocument.wordprocessingml.document".
Definition notes_docx := sample "3" "notes.docx" 1024 docxMime None.

Definition s50 := sample "a" "a.bin" 50 "application/octet-stream" None.
Definition s10 := sample "b" "b.bin" 10 "application/octet-stream" None.
Definition s30 := sample "c" "c.bin" 30 "application/octet-stream" None.

Definition dated5 := sample "d" "d.bin" 1 "application/octet-stream" (Some 5).
Definition undated := sample "u" "u.bin" 1 "application/octet-stream" None.

(** The state after choosing a category in the filter control, and a
    state with a given sort key and sort order that filters nothing. *)
Definition filterBy (category_ : string) : State :=
  control (SetFilterType category_) initialState.
Definition sortedBy (by_ : SortBy) (order : SortOrder) : State :=
  mkState "" grid by_ order "all" [].

(** A record whose mime type contains both "doc" and "zip". *)
Definition zipped_docs :=
  sample "z" "docs.zip" 1 "application/x-doc-zip" None.

(** A host that passes every callback and allows multi-selection, and the
    state after one click on the sample .pdf. *)
Definition hostProps : Props := mkProps true true true true.
Definition pdfSelected : State :=
  fst (handleFileClick hostProps initialState report_pdf).

(** A comparison of names by their first difference, byte by byte; one
    possible [localeCompare]. *)
Definition byteCompare (a b : string) : Z :=
  match String.compare a b with
  | Lt => -1
  | Eq => 0
  | Gt => 1
  end.

End FileManager.

(** ** FileUpload.tsx *)

Module FileUpload.

Import JS.

(** The DOM [File], as far as the component reads it. *)
Record File := mkFile {
  file_name : string;
  file_size : Z;
  file_type : string
}.

Inductive Status := uploading | completed | error.

(** [interface FileWithProgress extends File] of FileUpload.tsx. *)
Record FileWithProgress := mkStaged {
  name : string;
  size : Z;
  type : string;
  id : string;
  progress : Q;
  preview : option string;
  status : Status
}.

(** The props, without the callback [onFileSelect]; [maxFileSize] is in
    megabytes and integral, as is its default. *)
Record Props := mkProps {
  acceptedTypes : string;
  maxFileSize : Z;
  multiple : bool;
  showPreview : bool;
  allowFileManagement : bool
}.

Definition defaultProps : Props :=
  mkProps
    "image/*,video/*,audio/*,.pdf,.doc,.docx,.txt,.zip,.rar,.json,.csv,.xlsx,.pptx"
    25 true true true.

(** The [useState] cells. *)
Record State := mkState {
  dragActive : bool;
  selectedFiles : list FileWithProgress;
  isUploading : bool
}.

Definition initialState : State := mkState false [] false.

(** What the component does outside itself, in order. *)
Inductive Call :=
| ToastCall (t : Toast)
| OnFileSelect (files : list FileWithProgress).

(** The component in its surroundings: its state and the calls made so
    far, oldest first. *)
Record World := mkWorld {
  state : State;
  calls : list Call
}.

Definition setSelectedFiles
           (f : list FileWithProgress -> list FileWithProgress)
           (w : World) : World :=
  mkWorld (mkState (dragActive (state w)) (f (selectedFiles (state w)))
                   (isUploading (state w)))
          (calls w).

Definition setIsUploading (b : bool) (w : World) : World :=
  mkWorld (mkState (dragActive (state w)) (selectedFiles (state w)) b)
          (calls w).

Definition emit (cs : list Call) (w : World) : World :=
  mkWorld (state w) (calls w ++ cs).

(** *** Validation *)

Definition tooLargeToast (props : Props) (file : File) : Toast :=
  mkToast "File too large"
          (file_name file ++ " exceeds " ++ numberToString (maxFileSize props)
             ++ "MB limit")%string
          (Some "destructive").

(** [validateFile]: the result and the toasts it raises. *)
Definition validateFile (props : Props) (file : File) : bool * list Call :=
  if file_size file >? maxFileSize props * 1024 * 1024
  then (false, [ToastCall (tooLargeToast props file)])
  else (true, []).

(** *** Preview *)

(** How a [FileReader] read ends: the [load] event with the data URL, or
    an [error] or [abort] event. *)
Inductive ReadOutcome :=
| Loaded (result : string)
| Failed.

(** What the component does not decide: the identifier built for the
    [k]-th accepted file of a batch, how the read of a file ends, and
    which interval timer fires next with which draw of [Math.random]
    (the timer of the [k]-th upload of the batch). *)
Record Env := mkEnv {
  freshId : nat -> string;
  readAsDataURL : File -> ReadOutcome;
  timers : list (nat * Q)
}.

(** [generatePreview]. The only handler set on the reader is [onload]:
    the promise is resolved when the read loads and by nothing else. *)
Definition generatePreview (env : Env) (file : File)
  : Promise (option string) :=
  if startsWith (file_type file) "image/" then
    match readAsDataURL env file with
    | Loaded result => Resolved (Some result)
    | Failed => Pending
    end
  else Resolved None.

(** *** Simulated upload *)

(** The closure of one [simulateUpload(fileId)]: the local [progress]
    and whether the interval is still set. [clearInterval] and
    [resolve] are in the same branch of the callback, so the promise is
    resolved exactly when the interval is cleared. *)
Record Upload := mkUpload {
  fileId : string;
  local_progress : Q;
  interval : bool
}.

Definition simulateUpload (fileId : string) : Upload :=
  mkUpload fileId 0 true.

Definition resolved (u : Upload) : bool := negb (interval u).

(** [{ ...f, progress: 100, status: 'completed' }] *)
Definition complete (f : FileWithProgress) : FileWithProgress :=
  mkStaged (name f) (size f) (type f) (id f) 100 (preview f) completed.

(** [{ ...f, progress }] *)
Definition withProgress (p : Q) (f : FileWithProgress) : FileWithProgress :=
  mkStaged (name f) (size f) (type f) (id f) p (preview f) (status f).

(** [Math.random() * 15] for the draw [r]. *)
Definition increment (r : Q) : Q := r * 15.

(** [Math.random] returns a number [r] with [0 <= r < 1]. *)
Definition validDraw (r : Q) : Prop := (0 <= r /\ r < 1)%Q.

(** One run of the interval callback, with the draw [r]. A cleared
    interval does not call back. *)
Definition tick (r : Q) (u : Upload) (sel : list FileWithProgress)
  : Upload * list FileWithProgress :=
  if interval u then
    let progress := (local_progress u + increment r)%Q in
    if Qle_bool 100 progress then
      (mkUpload (fileId u) 100 false,
       map (fun f => if String.eqb (id f) (fileId u) then complete f else f)
           sel)
    else
      (mkUpload (fileId u) progress true,
       map (fun f => if String.eqb (id f) (fileId u)
                     then withProgress progress f else f)
           sel)
  else (u, sel).

(** The timer of the [k]-th upload fires. *)
Fixpoint fire (k : nat) (r : Q) (us : list Upload)
         (sel : list FileWithProgress)
  : list Upload * list FileWithProgress :=
  match us, k with
  | [], _ => ([], sel)
  | u :: us', O => let (u', sel') := tick r u sel in (u' :: us', sel')
  | u :: us', S k' =>
      let (us'', sel') := fire k' r us' sel in (u :: us'', sel')
  end.

Fixpoint runTimers (events : list (nat * Q)) (us : list Upload)
         (sel : list FileWithProgress)
  : list Upload * list FileWithProgress :=
  match events with
  | [] => (us, sel)
  | (k, r) :: rest =>
      let (us', sel') := fire k r us sel in runTimers rest us' sel'
  end.

(** *** Staging a batch *)

(** The literal that [handleFiles] builds for an accepted file. The
    spread [...file] is taken to carry the fields of the file over, as
    the declared type [FileWithProgress extends File] says. *)
Definition staged (file : File) (id_ : string) (preview_ : option string)
  : FileWithProgress :=
  mkStaged (file_name file) (file_size file) (file_type file) id_ 0
           preview_ uploading.

(** The [for ... of] loop of [handleFiles]: the calls it makes and the
    array [newFiles] it ends with, unless an awaited preview stays
    pending. *)
Fixpoint stageLoop (props : Props) (env : Env) (files : list File)
         (newFiles : list FileWithProgress)
  : list Call * Promise (list FileWithProgress) :=
  match files with
  | [] => ([], Resolved newFiles)
  | file :: rest =>
      let (ok, cs) := validateFile props file in
      if ok then
        match generatePreview env file with
        | Resolved preview_ =>
            let fileWithProgress :=
              staged file (freshId env (List.length newFiles)) preview_ in
            let (cs', r) :=
              stageLoop props env rest (newFiles ++ [fileWithProgress]) in
            (cs ++ cs', r)
        | Pending => (cs, Pending)
        end
      else
        let (cs', r) := stageLoop props env rest newFiles in
        (cs ++ cs', r)
  end.

Definition completedToast (newFiles : list FileWithProgress) : Toast :=
  mkToast "Upload completed"
          (numberToString (Z.of_nat (List.length newFiles))
             ++ " file(s) uploaded successfully")%string
          None.

(** [handleFiles]. The result is [Pending] when the function is still
    suspended at an [await] once the timers of [env] have fired. *)
Definition handleFiles (props : Props) (env : Env)
           (files : option (list File)) (w : World)
  : World * Promise unit :=
  match files with
  | None => (w, Resolved tt)
  | Some files =>
      let w := setIsUploading true w in
      let (cs, r) := stageLoop props env files [] in
      let w := emit cs w in
      match r with
      | Pending => (w, Pending)
      | Resolved newFiles =>
          let w :=
            setSelectedFiles
              (fun prev => if multiple props then prev ++ newFiles
                           else newFiles) w in
          let (uploads, sel) :=
            runTimers (timers env)
                      (map (fun file => simulateUpload (id file)) newFiles)
                      (selectedFiles (state w)) in
          let w := setSelectedFiles (fun _ => sel) w in
          if forallb resolved uploads then
            let w := setIsUploading false w in
            let w := emit [OnFileSelect newFiles] w in
            let w := emit [ToastCall (completedToast newFiles)] w in
            (w, Resolved tt)
          else (w, Pending)
      end
  end.

(** [removeFile] *)
Definition removeFile (fileId : string) (w : World) : World :=
  emit [ToastCall (mkToast "File removed"
                           "File has been removed from the upload queue"
                           None)]
       (setSelectedFiles
          (filter (fun f => negb (String.eqb (id f) fileId))) w).

(** [clearAllFiles] *)
Definition clearAllFiles (w : World) : World :=
  emit [ToastCall (mkToast "All files cleared" "All files have been removed"
                           None)]
       (setSelectedFiles (fun _ => []) w).

(** *** Icons *)

(** [getFileIcon] of the component, and the copy of it in
    [FilePreview]. *)
Definition getFileIcon (file : File) : Icon :=
  let type := file_type file in
  if startsWith type "image/" then FileImageIcon
  else if startsWith type "video/" then VideoIcon
  else if startsWith type "audio/" then MusicIcon
  else if includes type "pdf" then FileTextIcon
  else if includes type "zip" || includes type "rar" then ArchiveIcon
  else FileIcon.

Definition previewFileIcon (file : FileWithProgress) : Icon :=
  let type := type file in
  if startsWith type "image/" then FileImageIcon
  else if startsWith type "video/" then VideoIcon
  else if startsWith type "audio/" then MusicIcon
  else if includes type "pdf" then FileTextIcon
  else if includes type "zip" || includes type "rar" then ArchiveIcon
  else FileIcon.

(** *** Timers and the user, interleaved

    While uploads run the user can remove a file or clear the list. An
    event is a timer that fires or one of these two handlers. *)
Inductive Event :=
| TimerFires (k : nat) (r : Q)
| RemoveFile (fileId : string)
| ClearAll.

Definition stepEvent (e : Event) (us : list Upload) (w : World)
  : list Upload * World :=
  match e with
  | TimerFires k r =>
      let (us', sel') := fire k r us (selectedFiles (state w)) in
      (us', setSelectedFiles (fun _ => sel') w)
  | RemoveFile fileId => (us, removeFile fileId w)
  | ClearAll => (us, clearAllFiles w)
  end.

Fixpoint runEvents (events : list Event) (us : list Upload) (w : World)
  : list Upload * World :=
  match events with
  | [] => (us, w)
  | e :: rest =>
      let (us', w') := stepEvent e us w in runEvents rest us' w'
  end.

(** The timer events among the events. *)
Fixpoint timersOf (events : list Event) : list (nat * Q) :=
  match events with
  | [] => []
  | TimerFires k r :: rest => (k, r) :: timersOf rest
  | _ :: rest => timersOf rest
  end.

(** *** Observing a simulated upload *)

(** The record of the collection with a given identifier. *)
Definition lookup (fileId : string) (sel : list FileWithProgress)
  : option FileWithProgress :=
  find (fun f => String.eqb (id f) fileId) sel.

(** The uploads and the collection once the first [n] timer events have
    fired, and the record seen then. *)
Definition after (n : nat) (events : list (nat * Q)) (us : list Upload)
           (sel : list FileWithProgress)
  : list Upload * list FileWithProgress :=
  runTimers (firstn n events) us sel.

Definition observed (fileId : string) (n : nat) (events : list (nat * Q))
           (us : list Upload) (sel : list FileWithProgress)
  : option FileWithProgress :=
  lookup fileId (snd (after n events us sel)).

(** Event number [n] is the update that sets the record to 100. *)
Definition completesAt (fileId : string) (n : nat) (events : list (nat * Q))
           (us : list Upload) (sel : list FileWithProgress) : Prop :=
  exists g g',
    observed fileId n events us sel = Some g
    /\ observed fileId (S n) events us sel = Some g'
    /\ status g = uploading /\ (progress g < 100)%Q
    /\ status g' = completed /\ progress g' = 100%Q.

(** Every draw of the events is one [Math.random] can return. *)
Definition validEvents (events : list (nat * Q)) : Prop :=
  Forall (fun e => validDraw (snd e)) events.

(** The sum of the draws of the events of timer [k]. *)
Fixpoint sumDraws (k : nat) (events : list (nat * Q)) : Q :=
  match events with
  | [] => 0
  | (j, r) :: rest =>
      if Nat.eqb j k then (r + sumDraws k rest)%Q else sumDraws k rest
  end.

(** The part of a staged record that the simulation does not write. *)
Definition fixedPart (f : FileWithProgress)
  : string * Z * string * string * option string :=
  (name f, size f, type f, id f, preview f).

(** A file is accepted when [validateFile] answers [true]. *)
Definition accepted (props : Props) (file : File) : bool :=
  fst (validateFile props file).

(** *** One upload seen alone

    What the timer events do to the upload at position [k] of a batch and
    to the record it writes, leaving the other uploads and records
    aside. *)
Definition advance (k : nat) (e : nat * Q) (u : Upload)
           (g : FileWithProgress) : Upload * FileWithProgress :=
  if Nat.eqb (fst e) k && interval u then
    let progress := (local_progress u + increment (snd e))%Q in
    if Qle_bool 100 progress
    then (mkUpload (fileId u) 100 false, complete g)
    else (mkUpload (fileId u) progress true, withProgress progress g)
  else (u, g).

Fixpoint advanceAll (k : nat) (events : list (nat * Q)) (u : Upload)
         (g : FileWithProgress) : Upload * FileWithProgress :=
  match events with
  | [] => (u, g)
  | e :: rest => let (u', g') := advance k e u g in advanceAll k rest u' g'
  end.

(** The upload and its record agree: while the interval is set the record
    is uploading and shows the local progress, which is below 100; once
    the interval is cleared the record is completed at 100. *)
Definition inPhase (u : Upload) (g : FileWithProgress) : Prop :=
  (interval u = true /\ status g = uploading
   /\ progress g = local_progress u /\ (local_progress u < 100)%Q)
  \/ (interval u = false /\ status g = completed /\ progress g = 100%Q).

(** [u] is the upload at position [k], [g] is the record of the collection
    with the identifier of [u], and no other upload has this identifier. *)
Definition tracks (k : nat) (us : list Upload) (sel : list FileWithProgress)
           (u : Upload) (g : FileWithProgress) : Prop :=
  nth_error us k = Some u
  /\ lookup (fileId u) sel = Some g
  /\ (forall j u', nth_error us j = Some u' -> j <> k ->
                   fileId u' <> fileId u).

(** A later observation of a record, compared with an earlier one. *)
Definition follows (g g' : FileWithProgress) : Prop :=
  fixedPart g' = fixedPart g
  /\ (progress g <= progress g')%Q
  /\ (status g = completed -> g' = g).

(** *** Sample data *)

Definition megabyte : Z := 1024 * 1024.
Definition photo : File := mkFile "photo.png" (5 * megabyte) "image/png".
Definition scan : File := mkFile "scan.png" (3 * megabyte) "image/png".
Definition notes : File := mkFile "notes.txt" 2048 "text/plain".
Definition movie : File := mkFile "movie.mp4" (30 * megabyte) "video/mp4".

Definition sampleId (k : nat) : string :=
  ("id-" ++ numberToString (Z.of_nat k))%string.

(** Fourteen firings of timer 0 and of timer 1 in turn, each with the
    draw 1/2. *)
Definition halves : list (nat * Q) :=
  List.concat (repeat [(0%nat, 1 # 2); (1%nat, 1 # 2)] 14).

Definition loadingEnv : Env :=
  mkEnv sampleId
        (fun file => Loaded ("data:" ++ file_type file ++ ";base64,AAAA")%string)
        halves.

Definition failingEnv : Env := mkEnv sampleId (fun _ => Failed) halves.

Definition emptyWorld : World := mkWorld initialState [].

(** The records that [handleFiles] builds for the sample photo and the
    sample notes when the reads load. *)
Definition sampleBatch : list FileWithProgress :=
  [staged photo "id-0" (Some "data:image/png;base64,AAAA");
   staged notes "id-1" None].



End FileUpload.

(** ** ChatInput.tsx

    The chat input that hosts the upload component; its [handleFileSelect]
    is the [onFileSelect] of the upload component. *)

Module ChatInput.

Import JS.

(** The [useState] cells. The records are those of the upload
    component: the two files declare the same interface. *)
Record State := mkState {
  message : string;
  attachedFiles : list FileUpload.FileWithProgress;
  showFileUpload : bool
}.

Definition initialState : State := mkState "" [] false.

Inductive Call :=
| PreventDefault
| OnSendMessage (message : string)
                (files : list FileUpload.FileWithProgress).

(** [handleSend] *)
Definition handleSend (st : State) : State * list Call :=
  if truthy (trim (message st)) || (0 <? List.length (attachedFiles st))%nat
  then (mkState "" [] false,
        [OnSendMessage (trim (message st)) (attachedFiles st)])
  else (st, []).

(** [handleKeyPress], for the key and the state of the shift key of the
    event. *)
Definition handleKeyPress (key : string) (shiftKey : bool) (st : State)
  : State * list Call :=
  if String.eqb key "Enter" && negb shiftKey then
    let (st', cs) := handleSend st in (st', PreventDefault :: cs)
  else (st, []).

(** [handleFileSelect] *)
Definition handleFileSelect (files : list FileUpload.FileWithProgress)
           (st : State) : State :=
  mkState (message st) (attachedFiles st ++ files) (showFileUpload st).

(** [removeFile] *)
Definition removeFile (fileId : string) (st : State) : State :=
  mkState (message st)
          (filter (fun f => negb (String.eqb (FileUpload.id f) fileId))
                  (attachedFiles st))
          (showFileUpload st).

Definition isCompleted (f : FileUpload.FileWithProgress) : bool :=
  match FileUpload.status f with
  | FileUpload.completed => true
  | _ => false
  end.

Definition isUploadingFile (f : FileUpload.FileWithProgress) : bool :=
  match FileUpload.status f with
  | FileUpload.uploading => true
  | _ => false
  end.

(** [completedFiles] and [uploadingFiles] *)
Definition completedFiles (st : State) : list FileUpload.FileWithProgress :=
  filter isCompleted (attachedFiles st).

Definition uploadingFiles (st : State) : list FileUpload.FileWithProgress :=
  filter isUploadingFile (attachedFiles st).

(** The [disabled] attribute of the send button. *)
Definition sendDisabled (disabled : bool) (st : State) : bool :=
  disabled
  || (negb (truthy (trim (message st)))
      && (List.length (completedFiles st) =? 0)%nat)
  || (0 <? List.length (uploadingFiles st))%nat.

(** [getFileTypeIcon] *)
Definition getFileTypeIcon (file : FileUpload.FileWithProgress) : Icon :=
  if startsWith (FileUpload.type file) "image/" then ImageIcon
  else PaperclipIcon.

End ChatInput.

(** ** The earlier upload component (src/unnamed/part_000)

    It keeps the DOM files themselves, validates a batch in one
    [forEach], and has neither previews at staging nor simulated
    uploads. *)

Module FileUploadV1.

Import JS.

Record Props := mkProps {
  acceptedTypes : string;
  maxFileSize : Z;
  multiple : bool
}.

Definition defaultProps : Props :=
  mkProps "image/*,.pdf,.doc,.docx,.txt" 10 true.

Record State := mkState {
  dragActive : bool;
  selectedFiles : list FileUpload.File
}.

Inductive Call :=
| ToastCall (t : Toast)
| OnFileSelect (files : list FileUpload.File).

Record World := mkWorld {
  state : State;
  calls : list Call
}.

Definition tooLargeToast (props : Props) (file : FileUpload.File) : Toast :=
  mkToast "File too large"
          (FileUpload.file_name file ++ " exceeds "
             ++ numberToString (maxFileSize props) ++ "MB limit")%string
          (Some "destructive").

(** [validateFile] *)
Definition validateFile (props : Props) (file : FileUpload.File)
  : bool * list Call :=
  if FileUpload.file_size file >? maxFileSize props * 1024 * 1024
  then (false, [ToastCall (tooLargeToast props file)])
  else (true, []).

(** A file is accepted when [validateFile] answers [true]. *)
Definition accepted (props : Props) (file : FileUpload.File) : bool :=
  fst (validateFile props file).

(** The [forEach] of [handleFiles]: the calls made and [validFiles]. *)
Fixpoint validateAll (props : Props) (files : list FileUpload.File)
         (validFiles : list FileUpload.File)
  : list Call * list FileUpload.File :=
  match files with
  | [] => ([], validFiles)
  | file :: rest =>
      let (ok, cs) := validateFile props file in
      let (cs', r) :=
        validateAll props rest (if ok then validFiles ++ [file]
                                else validFiles) in
      (cs ++ cs', r)
  end.

Definition uploadedToast (validFiles : list FileUpload.File) : Toast :=
  mkToast "Files uploaded"
          (numberToString (Z.of_nat (List.length validFiles))
             ++ " file(s) selected successfully")%string
          None.

(** [handleFiles] *)
Definition handleFiles (props : Props) (files : option (list FileUpload.File))
           (w : World) : World :=
  match files with
  | None => w
  | Some files =>
      let (cs, validFiles) := validateAll props files [] in
      if (0 <? List.length validFiles)%nat then
        mkWorld
          (mkState (dragActive (state w))
                   (if multiple props
                    then selectedFiles (state w) ++ validFiles
                    else validFiles))
          (calls w ++ cs ++ [OnFileSelect validFiles;
                             ToastCall (uploadedToast validFiles)])
      else mkWorld (state w) (calls w ++ cs)
  end.

(** [prev.filter((_, i) => p(i))], counting from [i]. *)
Fixpoint filterIndexed {A} (p : nat -> bool) (i : nat) (l : list A)
  : list A :=
  match l with
  | [] => []
  | x :: l' =>
      if p i then x :: filterIndexed p (S i) l' else filterIndexed p (S i) l'
  end.

(** [removeFile], by the position in the list. *)
Definition removeFile (index : nat) (w : World) : World :=
  mkWorld (mkState (dragActive (state w))
                   (filterIndexed (fun i => negb (Nat.eqb i index)) 0
                                  (selectedFiles (state w))))
          (calls w).

End FileUploadV1.

(** ** The file analysis of the chatbot (CosmicChatbot) *)

Module CosmicChatbot.

Import JS.

(** [getFileCategory] of the chatbot: its labels for pdf files and for
    unmatched types differ from those of the file manager. *)
Definition getFileCategory (file : FileUpload.FileWithProgress) : string :=
  let type := FileUpload.type file in
  if startsWith type "image/" then "image"
  else if startsWith type "video/" then "video"
  else if startsWith type "audio/" then "audio"
  else if includes type "pdf" then "PDF"
  else if includes type "doc" then "document"
  else if includes type "zip" || includes type "rar" then "archive"
  else "file".

(** The object [fileTypes]: its keys are category labels, none of which
    is an array index, so [Object.entries] lists them in the order in
    which they were first assigned. *)
Definition Counts := list (string * nat).

(** [fileTypes[type] || 0] *)
Fixpoint getCount (type : string) (fileTypes : Counts) : nat :=
  match fileTypes with
  | [] => 0
  | (key, count) :: rest =>
      if String.eqb key type then count else getCount type rest
  end.

(** [fileTypes[type] = n]: an existing key keeps its place, a new key
    goes last. *)
Fixpoint setCount (type : string) (n : nat) (fileTypes : Counts) : Counts :=
  match fileTypes with
  | [] => [(type, n)]
  | (key, count) :: rest =>
      if String.eqb key type then (key, n) :: rest
      else (key, count) :: setCount type n rest
  end.

(** The body of the [forEach] of [analyzeFiles], and the loop. *)
Definition countFile (fileTypes : Counts)
           (file : FileUpload.FileWithProgress) : Counts :=
  let type := getFileCategory file in
  setCount type (getCount type fileTypes + 1) fileTypes.

Definition countTypes (files : list FileUpload.FileWithProgress) : Counts :=
  fold_left countFile files [].

(** [`${count} ${type}${count > 1 ? 's' : ''}`] *)
Definition entryText (entry : string * nat) : string :=
  let (type, count) := entry in
  (numberToString (Z.of_nat count) ++ " " ++ type
     ++ (if (1 <? count)%nat then "s" else ""))%string.

(** [parts.join(sep)] *)
Fixpoint join (sep : string) (parts : list string) : string :=
  match parts with
  | [] => ""
  | [part] => part
  | part :: rest => (part ++ sep ++ join sep rest)%string
  end.

(** [analyzeFiles] *)
Definition analyzeFiles (files : list FileUpload.FileWithProgress)
  : string :=
  join ", " (map entryText (countTypes files)).

(** The label of the chatbot for a category of the file manager. *)
Definition chatbotLabel (category : string) : string :=
  if String.eqb category "pdf" then "PDF"
  else if String.eqb category "other" then "file"
  else category.

End CosmicChatbot.

(** * Properties of FileManager.tsx *)

Module FileManagerFacts.

Import FileManager.

(** ** The sort *)

Section Sorting.

Context {A : Type}.
Variable cmp : A -> A -> M Z.

Lemma insertM_nil x clock k : insertM cmp x [] clock k = ([x], k).
Proof. reflexivity. Qed.

Lemma insertM_cons x y l clock k :
  insertM cmp x (y :: l) clock k =
  let (c, k') := cmp x y clock k in
  if c <=? 0 then (x :: y :: l, k')
  else let (r, k'') := insertM cmp x l clock k' in (y :: r, k'').
Proof.
  simpl. unfold bind.
  destruct (cmp x y clock k) as [c k'].
  destruct (c <=? 0); reflexivity.
Qed.

Lemma sortM_cons x l clock k :
  sortM cmp (x :: l) clock k =
  let (s, k') := sortM cmp l clock k in insertM cmp x s clock k'.
Proof. reflexivity. Qed.

(** The sort rearranges; it neither drops nor repeats an element,
    whatever the comparison function answers. *)
Lemma insertM_Permutation x l clock k :
  Permutation (fst (insertM cmp x l clock k)) (x :: l).
Proof.
  revert k. induction l as [|y l IH]; intro k.
  - rewrite insertM_nil. apply Permutation_refl.
  - rewrite insertM_cons.
    destruct (cmp x y clock k) as [c k'].
    destruct (c <=? 0).
    + apply Permutation_refl.
    + specialize (IH k').
      destruct (insertM cmp x l clock k') as [r k'']. simpl in *.
      apply Permutation_trans with (y :: x :: l).
      * apply perm_skip, IH.
      * apply perm_swap.
Qed.

Lemma sortM_Permutation l clock k :
  Permutation (fst (sortM cmp l clock k)) l.
Proof.
  revert k. induction l as [|x l IH]; intro k.
  - apply Permutation_refl.
  - rewrite sortM_cons. specialize (IH k).
    destruct (sortM cmp l clock k) as [s k']. simpl in IH.
    apply Permutation_trans with (x :: s).
    + apply insertM_Permutation.
    + apply perm_skip, IH.
Qed.

(** Stability. [tied] picks records that compare equal to one another;
    the sort keeps them in the order they had. *)
Section Stable.

Variable tied : A -> bool.
Hypothesis tied_equal :
  forall x y clock k,
    tied x = true -> tied y = true -> fst (cmp x y clock k) = 0.

Lemma insertM_stable x l clock k :
  filter tied (fst (insertM cmp x l clock k)) = filter tied (x :: l).
Proof.
  revert k. induction l as [|y l IH]; intro k.
  - reflexivity.
  - rewrite insertM_cons.
    pose proof (tied_equal x y clock k) as Hxy.
    destruct (cmp x y clock k) as [c k'].
    destruct (c <=? 0) eqn:Hc; [reflexivity|].
    specialize (IH k').
    destruct (insertM cmp x l clock k') as [r k'']. simpl in *.
    destruct (tied y) eqn:Hy.
    + destruct (tied x) eqn:Hx.
      * specialize (Hxy eq_refl eq_refl). subst c. discriminate Hc.
      * rewrite IH. reflexivity.
    + exact IH.
Qed.

Lemma sortM_stable l clock k :
  filter tied (fst (sortM cmp l clock k)) = filter tied l.
Proof.
  revert k. induction l as [|x l IH]; intro k.
  - reflexivity.
  - rewrite sortM_cons. specialize (IH k).
    destruct (sortM cmp l clock k) as [s k']. simpl in IH.
    rewrite insertM_stable. simpl. rewrite IH. reflexivity.
Qed.

End Stable.

(** When the answers of the comparison function on the elements of the
    list do not depend on the clock, neither does the sorted list. *)
Lemma insertM_clockFree x l :
  (forall y, In y l ->
     forall c1 k1 c2 k2, fst (cmp x y c1 k1) = fst (cmp x y c2 k2)) ->
  forall c1 k1 c2 k2,
    fst (insertM cmp x l c1 k1) = fst (insertM cmp x l c2 k2).
Proof.
  induction l as [|y l IH]; intros H c1 k1 c2 k2.
  - reflexivity.
  - rewrite !insertM_cons.
    pose proof (H y (or_introl eq_refl) c1 k1 c2 k2) as Hy.
    destruct (cmp x y c1 k1) as [v1 k1'].
    destruct (cmp x y c2 k2) as [v2 k2']. simpl in Hy. subst v2.
    destruct (v1 <=? 0); [reflexivity|].
    assert (IH' := IH (fun z Hz => H z (or_intror Hz)) c1 k1' c2 k2').
    destruct (insertM cmp x l c1 k1') as [r1 ?].
    destruct (insertM cmp x l c2 k2') as [r2 ?].
    simpl in *. now rewrite IH'.
Qed.

Lemma sortM_clockFree l :
  clockFree cmp l ->
  forall c1 k1 c2 k2, fst (sortM cmp l c1 k1) = fst (sortM cmp l c2 k2).
Proof.
  induction l as [|x l IH]; intros H c1 k1 c2 k2.
  - reflexivity.
  - rewrite !sortM_cons.
    assert (Hl : clockFree cmp l).
    { intros a b Ha Hb. apply H; now right. }
    specialize (IH Hl c1 k1 c2 k2).
    pose proof (sortM_Permutation l c1 k1) as Hp.
    destruct (sortM cmp l c1 k1) as [s1 k1'].
    destruct (sortM cmp l c2 k2) as [s2 k2'].
    simpl in *. subst s2.
    apply insertM_clockFree.
    intros y Hy. apply H; [now left | right].
    eapply Permutation_in; eassumption.
Qed.

End Sorting.

(** ** Rearrangements, filters and sums *)

Lemma filter_Permutation {A} (f : A -> bool) (l l' : list A) :
  Permutation l l' -> Permutation (filter f l) (filter f l').
Proof.
  induction 1 as [|x l l' _ IH|x y l|l l' l'' _ IH1 _ IH2]; simpl.
  - constructor.
  - destruct (f x); [apply perm_skip|]; exact IH.
  - destruct (f x), (f y); try apply Permutation_refl. apply perm_swap.
  - eapply Permutation_trans; eassumption.
Qed.

Lemma sumSizes_Permutation l l' :
  Permutation l l' -> sumSizes l = sumSizes l'.
Proof.
  unfold sumSizes.
  induction 1 as [|x l l' _ IH|x y l|l l' l'' _ IH1 _ IH2]; simpl; lia.
Qed.

Lemma totalSize_from l acc :
  fold_left (fun a file => a + size file) l acc = acc + sumSizes l.
Proof.
  revert acc. unfold sumSizes.
  induction l as [|x l IH]; intro acc; simpl.
  - lia.
  - rewrite IH. lia.
Qed.

Lemma totalSize_sumSizes l : totalSize l = sumSizes l.
Proof. unfold totalSize. rewrite totalSize_from. lia. Qed.

(** ** The classifier *)

Lemma includes_empty s : JS.includes s "" = true.
Proof. destruct s; reflexivity. Qed.

Lemma getFileCategory_cases file :
  In (getFileCategory file)
     ["image"; "video"; "audio"; "pdf"; "document"; "archive"; "other"].
Proof.
  unfold getFileCategory.
  repeat match goal with
         | |- context [if ?b then _ else _] => destruct b
         end; simpl; tauto.
Qed.

Lemma getFileCategory_pdf_mime file :
  type file = "application/pdf" -> getFileCategory file = "pdf".
Proof. unfold getFileCategory. intros ->. reflexivity. Qed.

Lemma keep_document (pdf png docx : FileWithProgress) :
  type pdf = "application/pdf" -> type png = "image/png" ->
  type docx = docxMime ->
  filter (keep (filterBy "document")) [pdf; png; docx] = [docx].
Proof.
  intros Hpdf Hpng Hdocx.
  unfold filter, keep, matchesSearch, matchesFilter, getFileCategory.
  rewrite Hpdf, Hpng, Hdocx. simpl JS.toLowerCase.
  rewrite !includes_empty. reflexivity.
Qed.

(** C9. A mime type that contains "pdf" is never classified as document,
    and is classified as pdf unless one of the three prefix tests matched
    before; the mime type of a .pdf file is classified as pdf. Filtering
    by "document" a collection made of one .pdf, one .png and one .docx,
    in any order, leaves exactly the .docx. The classifier answers for
    every record with one of the seven categories, and with "other" when
    no test matches. *)
Theorem getFileCategory_pdf_is_not_document :
  (forall file,
      JS.includes (type file) "pdf" = true ->
      getFileCategory file <> "document"
      /\ (JS.startsWith (type file) "image/" = false ->
          JS.startsWith (type file) "video/" = false ->
          JS.startsWith (type file) "audio/" = false ->
          getFileCategory file = "pdf"))
  /\ (forall file,
         type file = "application/pdf" -> getFileCategory file = "pdf")
  /\ (forall localeCompare pdf png docx files clock,
         type pdf = "application/pdf" -> type png = "image/png" ->
         type docx = docxMime ->
         Permutation files [pdf; png; docx] ->
         run (filteredAndSortedFiles localeCompare files
                                     (filterBy "document")) clock
         = [docx])
  /\ (forall file,
         In (getFileCategory file)
            ["image"; "video"; "audio"; "pdf"; "document"; "archive";
             "other"])
  /\ (forall file,
         JS.startsWith (type file) "image/" = false ->
         JS.startsWith (type file) "video/" = false ->
         JS.startsWith (type file) "audio/" = false ->
         JS.includes (type file) "pdf" = false ->
         JS.includes (type file) "doc" = false ->
         JS.includes (type file) "zip" = false ->
         JS.includes (type file) "rar" = false ->
         getFileCategory file = "other").
Proof.
  split; [|split; [|split; [|split]]].
  - intros file Hpdf. unfold getFileCategory. rewrite Hpdf. split.
    + repeat match goal with
             | |- context [if ?b then _ else _] => destruct b
             end; discriminate.
    + intros -> -> ->. reflexivity.
  - apply getFileCategory_pdf_mime.
  - intros lc pdf png docx files clock Hpdf Hpng Hdocx Hperm.
    unfold run, filteredAndSortedFiles.
    assert (Hf : filter (keep (filterBy "document")) files = [docx]).
    { apply Permutation_length_1_inv.
      rewrite <- (keep_document pdf png docx Hpdf Hpng Hdocx).
      apply Permutation_sym, filter_Permutation, Hperm. }
    rewrite Hf. reflexivity.
  - apply getFileCategory_cases.
  - intros file H1 H2 H3 H4 H5 H6 H7. unfold getFileCategory.
    rewrite H1, H2, H3, H4, H5, H6, H7. reflexivity.
Qed.

Lemma getFileCategory_pdf_is_not_document_witness :
  getFileCategory report_pdf <> "document"
  /\ getFileCategory report_pdf = "pdf"
  /\ run (filteredAndSortedFiles byteCompare
                                 [notes_docx; report_pdf; photo_png]
                                 (filterBy "document")) (fun _ => 0)
     = [notes_docx]
  /\ getFileCategory undated = "other".
Proof.
  destruct getFileCategory_pdf_is_not_document as (H1 & H2 & H3 & _ & H5).
  split; [|split; [|split]].
  - apply (H1 report_pdf). reflexivity.
  - apply (H2 report_pdf). reflexivity.
  - apply (H3 byteCompare report_pdf photo_png notes_docx); try reflexivity.
    apply (Permutation_cons_append [report_pdf; photo_png]).
  - apply (H5 undated); reflexivity.
Defined.

(** ** The filtered view *)

Lemma keep_spec st file :
  keep st file = true <->
  JS.includes (JS.toLowerCase (name file)) (JS.toLowerCase (searchTerm st))
  = true
  /\ (filterType st = "all" \/ getFileCategory file = filterType st).
Proof.
  unfold keep, matchesSearch, matchesFilter.
  rewrite andb_true_iff, orb_true_iff, !String.eqb_eq. tauto.
Qed.

(** C7. The view holds exactly the records of the collection, each as
    often as it occurs there, whose lower-cased name contains the
    lower-cased search term and whose category is the filter category,
    or any category when the filter is "all"; the total size shown is the
    sum of the sizes over that view, and the count is its length. *)
Theorem filtered_view_and_total_size
        (localeCompare : string -> string -> Z)
        (files : list FileWithProgress) (st : State) (clock : Clock) :
  let view := run (filteredAndSortedFiles localeCompare files st) clock in
  Permutation view (filter (keep st) files)
  /\ (forall file,
         In file view <->
         In file files
         /\ JS.includes (JS.toLowerCase (name file))
                        (JS.toLowerCase (searchTerm st)) = true
         /\ (filterType st = "all"
             \/ getFileCategory file = filterType st))
  /\ totalSize view = sumSizes (filter (keep st) files)
  /\ List.length view = List.length (filter (keep st) files).
Proof.
  intro view.
  assert (Hperm : Permutation view (filter (keep st) files)).
  { apply sortM_Permutation. }
  split; [exact Hperm|split; [|split]].
  - intro file. rewrite <- keep_spec, <- filter_In. split; intro H.
    + eapply Permutation_in; eassumption.
    + eapply Permutation_in; [apply Permutation_sym|]; eassumption.
  - rewrite totalSize_sumSizes. apply sumSizes_Permutation, Hperm.
  - apply Permutation_length, Hperm.
Qed.

(** The total is taken over the view, not over the collection: with the
    filter "document" the three sample files show 1024 bytes out of
    7168. *)
Example total_size_of_documents :
  totalSize (run (filteredAndSortedFiles byteCompare
                    [report_pdf; photo_png; notes_docx]
                    (filterBy "document")) (fun _ => 0)) = 1024
  /\ sumSizes [report_pdf; photo_png; notes_docx] = 7168.
Proof. split; reflexivity. Qed.

(** ** Determinism of the query *)

Lemma compareFn_clockFree localeCompare by_ order l :
  (by_ = by_date -> forall file, In file l -> uploadDate file <> None) ->
  clockFree (compareFn localeCompare by_ order) l.
Proof.
  intros Hdated x y Hx Hy c1 k1 c2 k2.
  destruct by_; try reflexivity.
  pose proof (Hdated eq_refl x Hx) as Dx.
  pose proof (Hdated eq_refl y Hy) as Dy.
  unfold compareFn, comparison.
  destruct (uploadDate x); [|congruence].
  destruct (uploadDate y); [|congruence].
  reflexivity.
Qed.

(** C4, as the code has it. With the sort key name or size, and with the
    sort key date when every record that passes the filter has an upload
    date, the view does not depend on the clock: two evaluations of the
    query on the same collection give the same ordered view. *)
Theorem query_deterministic_without_undated_records
        (localeCompare : string -> string -> Z)
        (files : list FileWithProgress) (st : State) :
  (sortBy st = by_date ->
   forall file, In file files -> keep st file = true ->
                uploadDate file <> None) ->
  forall clock1 clock2,
    run (filteredAndSortedFiles localeCompare files st) clock1
    = run (filteredAndSortedFiles localeCompare files st) clock2.
Proof.
  intros Hdated clock1 clock2.
  unfold run, filteredAndSortedFiles.
  apply sortM_clockFree, compareFn_clockFree.
  intros Hby file Hin. apply filter_In in Hin as [Hin Hkeep].
  now apply Hdated.
Qed.

Lemma query_deterministic_without_undated_records_witness :
  run (filteredAndSortedFiles byteCompare [s50; s10; s30]
                              (sortedBy by_size asc)) (fun _ => 0)
  = run (filteredAndSortedFiles byteCompare [s50; s10; s30]
                                (sortedBy by_size asc)) (fun _ => 10).
Proof.
  apply (query_deterministic_without_undated_records
           byteCompare [s50; s10; s30] (sortedBy by_size asc)).
  simpl. discriminate.
Defined.

(** C4, as stated, fails: a record without upload date is compared as if
    dated at the instant of the comparison. A record dated 5 and an
    undated one are sorted by date, once while the clock reads 0 and once
    while it reads 10: the undated record comes first in the first view and
    last in the second. *)
Lemma query_by_date_depends_on_clock :
  run (filteredAndSortedFiles byteCompare [dated5; undated]
                              (sortedBy by_date asc)) (fun _ => 0)
  = [undated; dated5]
  /\ run (filteredAndSortedFiles byteCompare [dated5; undated]
                                 (sortedBy by_date asc)) (fun _ => 10)
     = [dated5; undated]
  /\ ~ (forall localeCompare files st clock1 clock2,
          run (filteredAndSortedFiles localeCompare files st) clock1
          = run (filteredAndSortedFiles localeCompare files st) clock2).
Proof.
  split; [reflexivity|]. split; [reflexivity|].
  intro H.
  specialize (H byteCompare [dated5; undated] (sortedBy by_date asc)
                (fun _ => 0) (fun _ => 10)).
  discriminate H.
Qed.

(** ** Sorting by a key without ties *)

Lemma insertM_pure {A} (f : A -> A -> Z) x l clock k :
  insertM (fun a b => ret (f a b)) x l clock k = (insertPure f x l, k).
Proof.
  induction l as [|y l IH].
  - reflexivity.
  - rewrite insertM_cons. cbn [ret insertPure].
    destruct (f x y <=? 0); [reflexivity|]. now rewrite IH.
Qed.

Lemma sortM_pure {A} (f : A -> A -> Z) l clock k :
  sortM (fun a b => ret (f a b)) l clock k = (sortPure f l, k).
Proof.
  induction l as [|x l IH].
  - reflexivity.
  - rewrite sortM_cons, IH. apply insertM_pure.
Qed.

Section ByKey.

Context {A : Type}.
Variable key : A -> Z.

Lemma insertPure_Permutation (f : A -> A -> Z) x l :
  Permutation (insertPure f x l) (x :: l).
Proof.
  induction l as [|y l IH]; simpl.
  - apply Permutation_refl.
  - destruct (f x y <=? 0).
    + apply Permutation_refl.
    + apply Permutation_trans with (y :: x :: l).
      * apply perm_skip, IH.
      * apply perm_swap.
Qed.

Lemma sortPure_Permutation (f : A -> A -> Z) l :
  Permutation (sortPure f l) l.
Proof.
  induction l as [|x l IH]; simpl.
  - apply Permutation_refl.
  - eapply Permutation_trans; [apply insertPure_Permutation|].
    apply perm_skip, IH.
Qed.

(** An element that goes after every element of the list is appended. *)
Lemma insertPure_last (f : A -> A -> Z) x l :
  Forall (fun y => 0 < f x y) l -> insertPure f x l = l ++ [x].
Proof.
  induction 1 as [|y l Hy _ IH]; simpl.
  - reflexivity.
  - destruct (Z.leb_spec (f x y) 0); [lia|]. now rewrite IH.
Qed.

(** An element that goes before [y] is inserted before a final [y]. *)
Lemma insertPure_snoc (f : A -> A -> Z) x l y :
  f x y <= 0 -> insertPure f x (l ++ [y]) = insertPure f x l ++ [y].
Proof.
  intro Hxy. induction l as [|z l IH]; simpl.
  - destruct (Z.leb_spec (f x y) 0); [reflexivity|lia].
  - destruct (f x z <=? 0); [reflexivity|]. now rewrite IH.
Qed.

Lemma insertPure_sorted x l :
  StronglySorted (keyBelow key) l -> ~ In (key x) (map key l) ->
  StronglySorted (keyBelow key) (insertPure (ascending key) x l).
Proof.
  induction 1 as [|y l Hs IH Hy]; intro Hx; simpl.
  - repeat constructor.
  - assert (Hne : key x <> key y) by (intro E; apply Hx; now left).
    assert (Hx' : ~ In (key x) (map key l))
      by (intro E; apply Hx; now right).
    unfold ascending at 1. destruct (Z.leb_spec (key x - key y) 0).
    + constructor; [now constructor|].
      constructor; [unfold keyBelow; lia|].
      eapply Forall_impl; [|exact Hy].
      unfold keyBelow. intros z Hz. lia.
    + constructor; [now apply IH|].
      eapply Permutation_Forall;
        [apply Permutation_sym, insertPure_Permutation|].
      constructor; [unfold keyBelow; lia|exact Hy].
Qed.

Lemma NoDup_keys_cons x l :
  NoDup (map key (x :: l)) ->
  ~ In (key x) (map key l) /\ NoDup (map key l).
Proof. simpl. intro H. inversion H; subst. now split. Qed.

Lemma sortPure_keys (f : A -> A -> Z) x l :
  ~ In (key x) (map key l) -> ~ In (key x) (map key (sortPure f l)).
Proof.
  intros H Hin. apply H.
  eapply Permutation_in; [|exact Hin].
  apply Permutation_map, sortPure_Permutation.
Qed.

Lemma sortPure_sorted l :
  NoDup (map key l) ->
  StronglySorted (keyBelow key) (sortPure (ascending key) l).
Proof.
  induction l as [|x l IH]; intro H.
  - constructor.
  - apply NoDup_keys_cons in H as [Hx Hl]. simpl.
    apply insertPure_sorted; [now apply IH|now apply sortPure_keys].
Qed.

(** Inserting in descending order into the reversed list is the
    reverse of inserting in ascending order. *)
Lemma insertPure_rev x l :
  StronglySorted (keyBelow key) l -> ~ In (key x) (map key l) ->
  insertPure (descending key) x (rev l) = rev (insertPure (ascending key) x l).
Proof.
  induction 1 as [|y l Hs IH Hy]; intro Hx.
  - reflexivity.
  - assert (Hne : key x <> key y) by (intro E; apply Hx; now left).
    assert (Hx' : ~ In (key x) (map key l))
      by (intro E; apply Hx; now right).
    cbn [insertPure rev]. unfold ascending at 1.
    destruct (Z.leb_spec (key x - key y) 0).
    + cbn [rev]. apply insertPure_last.
      apply Forall_app. split.
      * apply Forall_rev. eapply Forall_impl; [|exact Hy].
        unfold keyBelow, descending. intros z Hz. lia.
      * constructor; [unfold descending; lia|constructor].
    + cbn [rev]. rewrite <- IH by assumption.
      apply insertPure_snoc. unfold descending. lia.
Qed.

Lemma sortPure_rev l :
  NoDup (map key l) ->
  sortPure (descending key) l = rev (sortPure (ascending key) l).
Proof.
  induction l as [|x l IH]; intro H.
  - reflexivity.
  - apply NoDup_keys_cons in H as [Hx Hl]. simpl.
    rewrite IH by assumption.
    apply insertPure_rev; [now apply sortPure_sorted|].
    now apply sortPure_keys.
Qed.

End ByKey.

(** ** Sort order and stability *)

Lemma compareFn_by_size localeCompare order :
  compareFn localeCompare by_size order
  = fun a b => ret (match order with
                    | asc => size a - size b
                    | desc => - (size a - size b)
                    end).
Proof. reflexivity. Qed.

Lemma sort_by_size_ascending localeCompare l clock :
  fst (sortM (compareFn localeCompare by_size asc) l clock 0%nat)
  = sortPure (fun a b => size a - size b) l.
Proof. rewrite compareFn_by_size, sortM_pure. reflexivity. Qed.

Lemma sort_by_size_descending localeCompare l clock :
  fst (sortM (compareFn localeCompare by_size desc) l clock 0%nat)
  = sortPure (fun a b => - (size a - size b)) l.
Proof. rewrite compareFn_by_size, sortM_pure. reflexivity. Qed.

Lemma keep_sortedBy by_ order (l : list FileWithProgress) :
  filter (keep (sortedBy by_ order)) l = l.
Proof.
  induction l as [|x l IH]; simpl.
  - reflexivity.
  - unfold keep at 1, matchesSearch, matchesFilter. simpl JS.toLowerCase.
    rewrite includes_empty, IH. reflexivity.
Qed.

Lemma toggleSort_view_by_size localeCompare files st clock :
  sortBy st = by_size ->
  NoDup (map size (filter (keep st) files)) ->
  run (filteredAndSortedFiles localeCompare files (toggleSort st)) clock
  = rev (run (filteredAndSortedFiles localeCompare files st) clock).
Proof.
  intros Hby Hnodup. unfold run, filteredAndSortedFiles.
  change (keep (toggleSort st)) with (keep st).
  change (sortBy (toggleSort st)) with (sortBy st).
  change (sortOrder (toggleSort st))
    with (match sortOrder st with asc => desc | desc => asc end).
  rewrite Hby. destruct (sortOrder st).
  - rewrite sort_by_size_ascending, sort_by_size_descending.
    now apply (sortPure_rev size).
  - rewrite sort_by_size_ascending, sort_by_size_descending.
    rewrite (sortPure_rev size) by assumption.
    now rewrite rev_involutive.
Qed.

(** C8. Three records of sizes 50, 10 and 30, in this order, sorted by size
    ascending come out in the order 10, 30, 50, and after the sort order
    is toggled in the reverse of it. For every collection sorted by size
    in which no two records of the view have the same size, toggling the
    sort order reverses the view. For every collection and every query,
    records that compare equal under the sort key keep in the view the
    order they have in the collection. *)
Theorem sort_by_size_order_and_stability :
  (forall localeCompare a b c clock,
      size a = 50 -> size b = 10 -> size c = 30 ->
      run (filteredAndSortedFiles localeCompare [a; b; c]
                                  (sortedBy by_size asc)) clock
      = [b; c; a]
      /\ run (filteredAndSortedFiles localeCompare [a; b; c]
                                     (toggleSort (sortedBy by_size asc)))
             clock
         = rev (run (filteredAndSortedFiles localeCompare [a; b; c]
                                            (sortedBy by_size asc)) clock))
  /\ (forall localeCompare files st clock,
         sortBy st = by_size ->
         NoDup (map size (filter (keep st) files)) ->
         run (filteredAndSortedFiles localeCompare files (toggleSort st))
             clock
         = rev (run (filteredAndSortedFiles localeCompare files st) clock))
  /\ (forall localeCompare files st clock (tied : FileWithProgress -> bool),
         (forall x y clock' k,
             tied x = true -> tied y = true ->
             fst (comparison localeCompare (sortBy st) x y clock' k) = 0) ->
         filter tied (run (filteredAndSortedFiles localeCompare files st)
                          clock)
         = filter tied (filter (keep st) files)).
Proof.
  split; [|split].
  - intros lc a b c clock Ha Hb Hc.
    assert (Hasc : run (filteredAndSortedFiles lc [a; b; c]
                                               (sortedBy by_size asc)) clock
                   = [b; c; a]).
    { unfold run, filteredAndSortedFiles. rewrite keep_sortedBy.
      change (sortBy (sortedBy by_size asc)) with by_size.
      change (sortOrder (sortedBy by_size asc)) with asc.
      rewrite sort_by_size_ascending. cbn [sortPure insertPure].
      rewrite Hb, Hc. change (10 - 30 <=? 0) with true.
      cbn [insertPure]. rewrite Ha, Hb, Hc. reflexivity. }
    split; [exact Hasc|].
    apply toggleSort_view_by_size; [reflexivity|].
    rewrite keep_sortedBy. simpl. rewrite Ha, Hb, Hc.
    repeat constructor; simpl; lia.
  - apply toggleSort_view_by_size.
  - intros lc files st clock tied Htied.
    unfold run, filteredAndSortedFiles.
    apply sortM_stable.
    intros x y clock' k Hx Hy.
    specialize (Htied x y clock' k Hx Hy).
    unfold compareFn, bind.
    destruct (comparison lc (sortBy st) x y clock' k) as [v k'].
    simpl in *. subst v. now destruct (sortOrder st).
Qed.

Lemma sort_by_size_order_and_stability_witness :
  run (filteredAndSortedFiles byteCompare [s50; s10; s30]
                              (sortedBy by_size asc)) (fun _ => 0)
  = [s10; s30; s50]
  /\ run (filteredAndSortedFiles byteCompare [s50; s10; s30]
                                 (toggleSort (sortedBy by_size asc)))
         (fun _ => 0)
     = [s50; s30; s10]
  /\ filter (fun file => size file =? 1)
            (run (filteredAndSortedFiles byteCompare
                                         [s50; dated5; s10; undated]
                                         (sortedBy by_size desc))
                 (fun _ => 0))
     = [dated5; undated].
Proof.
  destruct sort_by_size_order_and_stability as (H1 & H2 & H3).
  split; [|split].
  - apply (H1 byteCompare s50 s10 s30); reflexivity.
  - rewrite (H2 byteCompare [s50; s10; s30] (sortedBy by_size asc)).
    + reflexivity.
    + reflexivity.
    + simpl. repeat constructor; simpl; intuition discriminate.
  - rewrite (H3 byteCompare [s50; dated5; s10; undated]
                (sortedBy by_size desc) (fun _ => 0)
                (fun file => size file =? 1)).
    + reflexivity.
    + intros x y clock' k Hx Hy. simpl.
      apply Z.eqb_eq in Hx, Hy. lia.
Defined.

(** With a tie the two orders are not the reverse of each other: two
    records of the same size come out in the order of the collection
    whether the sort order is ascending or descending. *)
Example toggleSort_keeps_tied_records_in_order :
  run (filteredAndSortedFiles byteCompare [dated5; undated]
                              (sortedBy by_size asc)) (fun _ => 0)
  = [dated5; undated]
  /\ run (filteredAndSortedFiles byteCompare [dated5; undated]
                                 (toggleSort (sortedBy by_size asc)))
         (fun _ => 0)
     = [dated5; undated].
Proof. split; reflexivity. Qed.

(** ** Selection and deletion *)

Lemma arrayIncludes_In xs x : JS.arrayIncludes xs x = true <-> In x xs.
Proof.
  unfold JS.arrayIncludes. rewrite existsb_exists. split.
  - intros (y & Hy & E). apply String.eqb_eq in E. now subst.
  - intro H. exists x. split; [exact H|apply String.eqb_refl].
Qed.

(** C5, as the code has it. The delete handler passes the identifier to
    [onFileDelete], when the host gave one, and raises the toast "File
    deleted"; it leaves every state cell, the selection included, as it
    was, so an identifier that was selected still is. The controls of the
    query leave the selection as it was. A click changes the selection
    only with multi-selection allowed, and then only as to the clicked
    record, whose identifier it adds when absent and removes when
    present. *)
Theorem handleDelete_leaves_selection
        (props : Props) (st : State) (fileId : string) :
  fst (handleDelete props st fileId) = st
  /\ snd (handleDelete props st fileId)
     = [StopPropagation]
         ++ (if hasOnFileDelete props then [OnFileDelete fileId] else [])
         ++ [ToastCall (JS.mkToast "File deleted"
                                   "File has been removed from storage"
                                   None)]
  /\ (In fileId (selectedFiles st) ->
      In fileId (selectedFiles (fst (handleDelete props st fileId))))
  /\ (forall c, selectedFiles (control c st) = selectedFiles st)
  /\ (forall file,
         allowMultiSelect props = false ->
         selectedFiles (fst (handleFileClick props st file))
         = selectedFiles st)
  /\ (forall file other,
         other <> id file ->
         (In other (selectedFiles (fst (handleFileClick props st file)))
          <-> In other (selectedFiles st)))
  /\ (forall file,
         allowMultiSelect props = true ->
         (In (id file) (selectedFiles (fst (handleFileClick props st file)))
          <-> ~ In (id file) (selectedFiles st))).
Proof.
  split; [reflexivity|]. split; [reflexivity|]. split; [tauto|].
  split; [intros []; reflexivity|]. split; [|split].
  - intros file Hno. unfold handleFileClick. now rewrite Hno.
  - intros file other Hne. unfold handleFileClick.
    destruct (allowMultiSelect props); simpl; [|tauto].
    destruct (JS.arrayIncludes (selectedFiles st) (id file)).
    + rewrite filter_In, negb_true_iff, String.eqb_neq. tauto.
    + rewrite in_app_iff. simpl. intuition congruence.
  - intros file Hyes. unfold handleFileClick. rewrite Hyes. simpl.
    destruct (JS.arrayIncludes (selectedFiles st) (id file)) eqn:E.
    + apply arrayIncludes_In in E.
      rewrite filter_In, negb_true_iff, String.eqb_neq. tauto.
    + assert (Hnot : ~ In (id file) (selectedFiles st)).
      { rewrite <- arrayIncludes_In, E. discriminate. }
      rewrite in_app_iff. simpl. tauto.
Qed.

Lemma handleDelete_leaves_selection_witness :
  In "1" (selectedFiles (fst (handleDelete hostProps pdfSelected "1")))
  /\ selectedFiles (control ToggleSort pdfSelected) = ["1"].
Proof.
  destruct (handleDelete_leaves_selection hostProps pdfSelected "1")
    as (_ & _ & H3 & H4 & _).
  split.
  - apply H3. simpl. now left.
  - rewrite H4. reflexivity.
Defined.

(** C5, as stated, fails: the sample .pdf is selected by a click and then
    deleted; the host is told to delete it, and its identifier is still in
    the selection. *)
Lemma handleDelete_does_not_purge_selection :
  selectedFiles pdfSelected = ["1"]
  /\ snd (handleDelete hostProps pdfSelected "1")
     = [StopPropagation; OnFileDelete "1";
        ToastCall (JS.mkToast "File deleted"
                              "File has been removed from storage" None)]
  /\ selectedFiles (fst (handleDelete hostProps pdfSelected "1")) = ["1"]
  /\ ~ (forall props st fileId,
          In fileId (selectedFiles st) ->
          ~ In fileId (selectedFiles (fst (handleDelete props st fileId)))).
Proof.
  split; [reflexivity|]. split; [reflexivity|]. split; [reflexivity|].
  intro H. apply (H hostProps pdfSelected "1"); simpl; now left.
Qed.

End FileManagerFacts.

(** * Properties of FileUpload.tsx *)

Module FileUploadFacts.

Import JS FileUpload.

(** ** Validation and the staging loop *)

Lemma validateFile_rejects props file :
  file_size file > maxFileSize props * 1024 * 1024 ->
  validateFile props file = (false, [ToastCall (tooLargeToast props file)]).
Proof.
  intro H. unfold validateFile.
  destruct (Z.gtb_spec (file_size file) (maxFileSize props * 1024 * 1024));
    [reflexivity|lia].
Qed.

Lemma validateFile_accepts props file :
  file_size file <= maxFileSize props * 1024 * 1024 ->
  validateFile props file = (true, []).
Proof.
  intro H. unfold validateFile.
  destruct (Z.gtb_spec (file_size file) (maxFileSize props * 1024 * 1024));
    [lia|reflexivity].
Qed.

Lemma accepted_iff props file :
  accepted props file = true <->
  file_size file <= maxFileSize props * 1024 * 1024.
Proof.
  unfold accepted, validateFile.
  destruct (Z.gtb_spec (file_size file) (maxFileSize props * 1024 * 1024));
    simpl; split; intro; try lia; try discriminate; reflexivity.
Qed.

Lemma stageLoop_rejected props env file rest newFiles :
  file_size file > maxFileSize props * 1024 * 1024 ->
  stageLoop props env (file :: rest) newFiles
  = (ToastCall (tooLargeToast props file)
       :: fst (stageLoop props env rest newFiles),
     snd (stageLoop props env rest newFiles)).
Proof.
  intro H. cbn [stageLoop]. rewrite (validateFile_rejects _ _ H).
  destruct (stageLoop props env rest newFiles). reflexivity.
Qed.

(** The loop over [before ++ rest] is the loop over [before] followed, when
    no preview of [before] stays pending, by the loop over [rest]. *)
Lemma stageLoop_app props env before rest newFiles :
  stageLoop props env (before ++ rest) newFiles
  = match stageLoop props env before newFiles with
    | (cs, Resolved newFiles') =>
        (cs ++ fst (stageLoop props env rest newFiles'),
         snd (stageLoop props env rest newFiles'))
    | (cs, Pending) => (cs, Pending)
    end.
Proof.
  revert newFiles. induction before as [|file before IH]; intro newFiles.
  - simpl. now destruct (stageLoop props env rest newFiles).
  - cbn [app stageLoop].
    destruct (validateFile props file) as [[|] cs].
    + destruct (generatePreview env file) as [preview_|]; [|reflexivity].
      rewrite IH.
      destruct (stageLoop props env before _) as [cs1 [newFiles'|]].
      * now rewrite app_assoc.
      * reflexivity.
    + rewrite IH.
      destruct (stageLoop props env before newFiles) as [cs1 [newFiles'|]].
      * now rewrite app_assoc.
      * reflexivity.
Qed.

Lemma fire_nil k r sel : fire k r [] sel = ([], sel).
Proof. now destruct k. Qed.

Lemma runTimers_nil events sel : runTimers events [] sel = ([], sel).
Proof.
  induction events as [|[k r] events IH]; simpl.
  - reflexivity.
  - rewrite fire_nil. exact IH.
Qed.

(** [handleFiles] on a batch, by the outcome of its loop. *)
Lemma handleFiles_Some props env files w :
  handleFiles props env (Some files) w
  = match stageLoop props env files [] with
    | (cs, Pending) =>
        (mkWorld (mkState (dragActive (state w)) (selectedFiles (state w))
                          true)
                 (calls w ++ cs),
         Pending)
    | (cs, Resolved newFiles) =>
        let (uploads, sel) :=
          runTimers (timers env)
                    (map (fun file => simulateUpload (id file)) newFiles)
                    (if multiple props
                     then selectedFiles (state w) ++ newFiles
                     else newFiles) in
        if forallb resolved uploads then
          (mkWorld (mkState (dragActive (state w)) sel false)
                   (calls w ++ cs
                      ++ [OnFileSelect newFiles;
                          ToastCall (completedToast newFiles)]),
           Resolved tt)
        else
          (mkWorld (mkState (dragActive (state w)) sel true) (calls w ++ cs),
           Pending)
    end.
Proof.
  unfold handleFiles.
  destruct (stageLoop props env files []) as [cs [newFiles|]];
    [|reflexivity].
  unfold emit, setIsUploading, setSelectedFiles.
  cbn [state calls selectedFiles dragActive isUploading].
  destruct (runTimers _ _ _) as [uploads sel].
  destruct (forallb resolved uploads); [|reflexivity].
  now rewrite <- !app_assoc.
Qed.

(** ** Rejection of oversize files *)

(** C2. A file larger than the limit is rejected by [validateFile], which
    raises exactly one toast, of the destructive variant, whose text
    carries the name of the file and the limit. In a batch, when the loop
    reaches the file, staging with the file and staging without it end in
    the same state, collection included, and with the same outcome, and
    the calls made differ by that one toast. Submitted alone with
    [multiple] set, the file leaves the collection as it was, and in
    either mode it adds no record to it. *)
Theorem oversize_file_is_rejected (props : Props) (env : Env) (file : File) :
  file_size file > maxFileSize props * 1024 * 1024 ->
  validateFile props file
  = (false,
     [ToastCall
        (mkToast "File too large"
                 (file_name file ++ " exceeds "
                    ++ numberToString (maxFileSize props) ++ "MB limit")%string
                 (Some "destructive"))])
  /\ (forall before rest w cs newFiles,
         stageLoop props env before [] = (cs, Resolved newFiles) ->
         let with_file :=
           handleFiles props env (Some (before ++ file :: rest)) w in
         let without_file :=
           handleFiles props env (Some (before ++ rest)) w in
         state (fst with_file) = state (fst without_file)
         /\ snd with_file = snd without_file
         /\ exists later,
             calls (fst without_file) = (calls w ++ cs) ++ later
             /\ calls (fst with_file)
                = (calls w ++ cs)
                    ++ [ToastCall (tooLargeToast props file)] ++ later)
  /\ (forall w,
         multiple props = true ->
         selectedFiles (state (fst (handleFiles props env (Some [file]) w)))
         = selectedFiles (state w))
  /\ (forall w f,
         In f (selectedFiles
                 (state (fst (handleFiles props env (Some [file]) w)))) ->
         In f (selectedFiles (state w))).
Proof.
  intro Hbig. split; [exact (validateFile_rejects props file Hbig)|].
  split; [|split].
  - intros before rest w cs newFiles Hbefore with_file without_file.
    subst with_file without_file.
    rewrite !handleFiles_Some, !stageLoop_app, Hbefore.
    rewrite (stageLoop_rejected props env file rest newFiles Hbig).
    destruct (stageLoop props env rest newFiles) as [cs' [newFiles'|]];
      cbn [fst snd].
    + destruct (runTimers _ _ _) as [uploads sel].
      destruct (forallb resolved uploads); cbn [fst snd state calls].
      * do 2 (split; [reflexivity|]).
        exists (cs' ++ [OnFileSelect newFiles';
                        ToastCall (completedToast newFiles')]).
        now rewrite <- !app_assoc.
      * do 2 (split; [reflexivity|]).
        exists cs'. now rewrite <- !app_assoc.
    + do 2 (split; [reflexivity|]).
      exists cs'. now rewrite <- !app_assoc.
  - intros w Hmultiple.
    rewrite handleFiles_Some, (stageLoop_rejected props env file [] [] Hbig).
    cbn [stageLoop fst snd map]. rewrite runTimers_nil, Hmultiple.
    cbn. apply app_nil_r.
  - intros w f.
    rewrite handleFiles_Some, (stageLoop_rejected props env file [] [] Hbig).
    cbn [stageLoop fst snd map]. rewrite runTimers_nil.
    cbn. destruct (multiple props); [now rewrite app_nil_r|intros []].
Qed.

Lemma oversize_file_is_rejected_witness :
  validateFile defaultProps movie
  = (false,
     [ToastCall (mkToast "File too large" "movie.mp4 exceeds 25MB limit"
                         (Some "destructive"))])
  /\ selectedFiles
       (state (fst (handleFiles defaultProps loadingEnv (Some [movie])
                                emptyWorld)))
     = [].
Proof.
  assert (Hbig : file_size movie > maxFileSize defaultProps * 1024 * 1024)
    by reflexivity.
  destruct (oversize_file_is_rejected defaultProps loadingEnv movie Hbig)
    as (H1 & _ & H3 & _).
  split.
  - exact H1.
  - apply (H3 emptyWorld). reflexivity.
Defined.

(** ** A batch in which every file is rejected *)

Lemma stageLoop_all_rejected props env files newFiles :
  Forall (fun file => file_size file > maxFileSize props * 1024 * 1024)
         files ->
  stageLoop props env files newFiles
  = (map (fun file => ToastCall (tooLargeToast props file)) files,
     Resolved newFiles).
Proof.
  induction 1 as [|file files Hbig _ IH].
  - reflexivity.
  - rewrite (stageLoop_rejected _ _ _ _ _ Hbig), IH. reflexivity.
Qed.

(** C10. When every file of a batch is larger than the limit,
    [handleFiles] runs to its end: after one "File too large" toast for
    each file, in the order of the batch, it calls [onFileSelect] once,
    with the empty array, and raises the toast "Upload completed" for 0
    files; [isUploading] is false again, and the collection is as it was
    with [multiple] set and empty otherwise. *)
Theorem all_rejected_batch_completes
        (props : Props) (env : Env) (files : list File) (w : World) :
  Forall (fun file => file_size file > maxFileSize props * 1024 * 1024)
         files ->
  handleFiles props env (Some files) w
  = (mkWorld
       (mkState (dragActive (state w))
                (if multiple props then selectedFiles (state w) else [])
                false)
       (calls w
          ++ map (fun file => ToastCall (tooLargeToast props file)) files
          ++ [OnFileSelect [];
              ToastCall (mkToast "Upload completed"
                                 "0 file(s) uploaded successfully" None)]),
     Resolved tt).
Proof.
  intro Hall.
  rewrite handleFiles_Some, (stageLoop_all_rejected _ _ _ _ Hall).
  cbn [map]. rewrite runTimers_nil. cbn [forallb].
  destruct (multiple props); [rewrite app_nil_r|]; reflexivity.
Qed.

Lemma all_rejected_batch_completes_witness :
  handleFiles defaultProps failingEnv (Some [movie; movie]) emptyWorld
  = (mkWorld
       initialState
       [ToastCall (mkToast "File too large" "movie.mp4 exceeds 25MB limit"
                           (Some "destructive"));
        ToastCall (mkToast "File too large" "movie.mp4 exceeds 25MB limit"
                           (Some "destructive"));
        OnFileSelect [];
        ToastCall (mkToast "Upload completed"
                           "0 file(s) uploaded successfully" None)],
     Resolved tt).
Proof.
  apply (all_rejected_batch_completes defaultProps failingEnv [movie; movie]
                                      emptyWorld).
  repeat constructor.
Defined.

(** ** One tick of the simulated upload *)

Lemma increment_bounds r :
  validDraw r -> (0 <= increment r)%Q /\ (increment r < 15)%Q.
Proof. unfold validDraw, increment. intros [H0 H1]. split; lra. Qed.

Lemma tick_cleared r u sel : interval u = false -> tick r u sel = (u, sel).
Proof. unfold tick. now intros ->. Qed.

Lemma tick_below r u sel :
  interval u = true ->
  (local_progress u + increment r < 100)%Q ->
  tick r u sel
  = (mkUpload (fileId u) (local_progress u + increment r) true,
     map (fun f => if String.eqb (id f) (fileId u)
                   then withProgress (local_progress u + increment r) f
                   else f) sel).
Proof.
  intros Hset Hlt. unfold tick. rewrite Hset.
  destruct (Qle_bool 100 (local_progress u + increment r)) eqn:E;
    [|reflexivity].
  apply Qle_bool_iff in E. lra.
Qed.

Lemma tick_reaches r u sel :
  interval u = true ->
  (100 <= local_progress u + increment r)%Q ->
  tick r u sel
  = (mkUpload (fileId u) 100 false,
     map (fun f => if String.eqb (id f) (fileId u) then complete f else f)
         sel).
Proof.
  intros Hset Hle. unfold tick. rewrite Hset.
  apply Qle_bool_iff in Hle. now rewrite Hle.
Qed.

(** C6, as the code has it. While the interval is set, a tick adds
    [Math.random() * 15] to the local progress, an increment that is at
    least 0 and less than 15. When the sum stays below 100 the record of
    the upload gets the sum as progress and nothing else changes. When
    the sum reaches 100 the record gets progress 100 and status completed
    in one update, the interval is cleared and the promise resolved, and
    no later tick changes anything. *)
Theorem tick_adds_increment_and_clamps
        (r : Q) (u : Upload) (sel : list FileWithProgress) :
  validDraw r -> interval u = true ->
  (0 <= increment r)%Q /\ (increment r < 15)%Q
  /\ ((local_progress u + increment r < 100)%Q ->
      tick r u sel
      = (mkUpload (fileId u) (local_progress u + increment r) true,
         map (fun f =>
                if String.eqb (id f) (fileId u)
                then mkStaged (name f) (size f) (type f) (id f)
                              (local_progress u + increment r) (preview f)
                              (status f)
                else f) sel))
  /\ ((100 <= local_progress u + increment r)%Q ->
      tick r u sel
      = (mkUpload (fileId u) 100 false,
         map (fun f =>
                if String.eqb (id f) (fileId u)
                then mkStaged (name f) (size f) (type f) (id f) 100
                              (preview f) completed
                else f) sel)
      /\ resolved (fst (tick r u sel)) = true
      /\ forall r',
          tick r' (fst (tick r u sel)) (snd (tick r u sel))
          = tick r u sel).
Proof.
  intros Hr Hset. destruct (increment_bounds r Hr) as [H0 H15].
  split; [exact H0|]. split; [exact H15|]. split.
  - intro Hlt. now apply tick_below.
  - intro Hle. rewrite (tick_reaches r u sel Hset Hle).
    split; [reflexivity|]. split; [reflexivity|].
    intro r'. reflexivity.
Qed.

Lemma tick_adds_increment_and_clamps_witness :
  (0 <= increment (1 # 2))%Q /\ (increment (1 # 2) < 15)%Q
  /\ tick (1 # 2) (mkUpload "id-0" 95 true) [staged photo "id-0" None]
     = (mkUpload "id-0" 100 false,
        [mkStaged "photo.png" (5 * megabyte) "image/png" "id-0" 100 None
                  completed]).
Proof.
  assert (Hr : validDraw (1 # 2)) by (unfold validDraw; lra).
  destruct (tick_adds_increment_and_clamps
              (1 # 2) (mkUpload "id-0" 95 true) [staged photo "id-0" None]
              Hr eq_refl) as (H0 & H15 & _ & Hreach).
  split; [exact H0|]. split; [exact H15|].
  apply Hreach. unfold increment. simpl. lra.
Defined.

(** C6, as stated, fails: the draw 0 is one [Math.random] can return, and
    it adds nothing; the increment is not strictly positive. The tick of a
    fresh upload with this draw leaves the progress of its record at 0. *)
Lemma increment_can_be_zero :
  validDraw 0
  /\ (increment 0 == 0)%Q
  /\ tick 0 (simulateUpload "id-0") [staged photo "id-0" None]
     = (mkUpload "id-0" (0 + 0 * 15) true,
        [mkStaged "photo.png" (5 * megabyte) "image/png" "id-0" (0 + 0 * 15)
                  None uploading])
  /\ ~ (forall r,
          validDraw r -> (0 < increment r)%Q /\ (increment r <= 15)%Q).
Proof.
  assert (H0 : validDraw 0) by (unfold validDraw; lra).
  split; [exact H0|]. split; [|split].
  - unfold increment. lra.
  - reflexivity.
  - intro H. destruct (H 0%Q H0) as [Hpos _]. unfold increment in Hpos. lra.
Qed.

(** ** The run of the timers *)

Lemma runTimers_app events1 events2 us sel :
  runTimers (events1 ++ events2) us sel
  = runTimers events2 (fst (runTimers events1 us sel))
              (snd (runTimers events1 us sel)).
Proof.
  revert us sel. induction events1 as [|[j r] events1 IH]; intros us sel.
  - reflexivity.
  - simpl. destruct (fire j r us sel) as [us' sel']. apply IH.
Qed.

Lemma firstn_split {A} (n m : nat) (l : list A) :
  (n <= m)%nat -> firstn m l = firstn n l ++ firstn (m - n) (skipn n l).
Proof.
  revert m l. induction n as [|n IH]; intros m l Hle.
  - now rewrite Nat.sub_0_r.
  - destruct m as [|m]; [lia|]. destruct l as [|x l].
    + simpl. now rewrite firstn_nil.
    + simpl. f_equal. apply IH. lia.
Qed.

Lemma validEvents_firstn n events :
  validEvents events -> validEvents (firstn n events).
Proof.
  unfold validEvents. intro H. revert n.
  induction H as [|e events He _ IH]; intros [|n]; simpl; constructor; auto.
Qed.

Lemma validEvents_skipn n events :
  validEvents events -> validEvents (skipn n events).
Proof.
  unfold validEvents. intro H. revert n.
  induction H as [|e events He H IH]; intros [|n]; simpl; auto.
Qed.

Lemma lookup_map i (h : FileWithProgress -> FileWithProgress) sel :
  (forall f, id (h f) = id f) ->
  lookup i (map h sel) = option_map h (lookup i sel).
Proof.
  intro Hid. unfold lookup. induction sel as [|f sel IH]; simpl.
  - reflexivity.
  - rewrite Hid. destruct (String.eqb (id f) i); [reflexivity|exact IH].
Qed.

Lemma lookup_id i sel g : lookup i sel = Some g -> id g = i.
Proof.
  unfold lookup. intro H. apply find_some in H as [_ H].
  now apply String.eqb_eq.
Qed.

Lemma lookup_NoDup sel f :
  NoDup (map id sel) -> In f sel -> lookup (id f) sel = Some f.
Proof.
  unfold lookup. induction sel as [|g sel IH]; intros Hnd Hin.
  - destruct Hin.
  - simpl in Hnd. inversion Hnd as [|? ? Hnotin Hnd']; subst. simpl.
    destruct Hin as [->|Hin].
    + now rewrite String.eqb_refl.
    + destruct (String.eqb_spec (id g) (id f)) as [E|_].
      * exfalso. apply Hnotin. rewrite E. now apply in_map.
      * now apply IH.
Qed.

Lemma tick_fileId r u sel : fileId (fst (tick r u sel)) = fileId u.
Proof.
  unfold tick. destruct (interval u); [|reflexivity].
  now destruct (Qle_bool 100 (local_progress u + increment r)).
Qed.

(** A tick writes no record but those with the identifier of its upload. *)
Lemma tick_lookup_other r u sel i :
  i <> fileId u -> lookup i (snd (tick r u sel)) = lookup i sel.
Proof.
  intro Hne. unfold tick. destruct (interval u); [|reflexivity].
  destruct (Qle_bool 100 (local_progress u + increment r)); cbn [snd];
    (rewrite lookup_map;
     [|intro f; now destruct (String.eqb (id f) (fileId u))]);
    (destruct (lookup i sel) as [g|] eqn:E; [|reflexivity]);
    apply lookup_id in E; simpl;
    (destruct (String.eqb_spec (id g) (fileId u)); [congruence|reflexivity]).
Qed.

Lemma fire_nth j r us sel :
  match nth_error us j with
  | Some u =>
      nth_error (fst (fire j r us sel)) j = Some (fst (tick r u sel))
      /\ snd (fire j r us sel) = snd (tick r u sel)
  | None => fire j r us sel = (us, sel)
  end.
Proof.
  revert j. induction us as [|u us IH]; intros [|j]; simpl; try reflexivity.
  - destruct (tick r u sel). now split.
  - specialize (IH j). destruct (nth_error us j) as [uj|].
    + destruct (fire j r us sel) as [us' sel']. exact IH.
    + now rewrite IH.
Qed.

Lemma fire_nth_other j r us sel m :
  m <> j -> nth_error (fst (fire j r us sel)) m = nth_error us m.
Proof.
  revert j m. induction us as [|u us IH]; intros [|j] [|m] Hne;
    simpl; try reflexivity; try congruence.
  - now destruct (tick r u sel).
  - now destruct (fire j r us sel).
  - specialize (IH j m). destruct (fire j r us sel) as [us' sel'].
    apply IH. congruence.
Qed.

Section OneUpload.

(** The position in the batch of the upload that is followed. *)
Variable k : nat.

Lemma advance_fileId e u g : fileId (fst (advance k e u g)) = fileId u.
Proof.
  unfold advance. destruct (Nat.eqb (fst e) k && interval u); [|reflexivity].
  now destruct (Qle_bool 100 (local_progress u + increment (snd e))).
Qed.

Lemma advance_other j r u g : j <> k -> advance k (j, r) u g = (u, g).
Proof.
  intro Hne. unfold advance. cbn [fst].
  now destruct (Nat.eqb_spec j k).
Qed.

(** The tick of the upload itself is [advance] on the upload and its
    record. *)
Lemma tick_advance r u sel g :
  lookup (fileId u) sel = Some g ->
  fst (tick r u sel) = fst (advance k (k, r) u g)
  /\ lookup (fileId u) (snd (tick r u sel))
     = Some (snd (advance k (k, r) u g)).
Proof.
  intro Hg. pose proof (lookup_id _ _ _ Hg) as Hid.
  unfold tick, advance. cbn [fst snd]. rewrite Nat.eqb_refl. cbn [andb].
  destruct (interval u); [|now split].
  destruct (Qle_bool 100 (local_progress u + increment r)); cbn [fst snd];
    (split; [reflexivity|]);
    (rewrite lookup_map;
     [|intro f; now destruct (String.eqb (id f) (fileId u))]);
    rewrite Hg; simpl; rewrite Hid, String.eqb_refl; reflexivity.
Qed.

(** The events of the other timers leave the upload and its record as
    they are, and its own events act on them as [advance] says. *)
Lemma fire_tracks j r us sel u g :
  tracks k us sel u g ->
  tracks k (fst (fire j r us sel)) (snd (fire j r us sel))
         (fst (advance k (j, r) u g)) (snd (advance k (j, r) u g)).
Proof.
  intros (Hu & Hg & Hothers). unfold tracks. rewrite advance_fileId.
  pose proof (fire_nth j r us sel) as Hfire.
  destruct (Nat.eq_dec j k) as [->|Hne].
  - rewrite Hu in Hfire. destruct Hfire as [Hk Hsel].
    destruct (tick_advance r u sel g Hg) as [Hfst Hsnd].
    rewrite Hk, Hsel, Hfst, Hsnd. repeat split.
    intros m u' Hm Hmk. rewrite fire_nth_other in Hm by assumption.
    now apply (Hothers m).
  - rewrite (advance_other j r u g Hne). cbn [fst snd].
    rewrite fire_nth_other by congruence. split; [exact Hu|].
    destruct (nth_error us j) as [uj|] eqn:Huj.
    + destruct Hfire as [Hj Hsel]. split.
      * rewrite Hsel. rewrite tick_lookup_other; [exact Hg|].
        intro E. now apply (Hothers j uj Huj Hne).
      * intros m u' Hm Hmk. destruct (Nat.eq_dec m j) as [->|Hmj].
        -- rewrite Hj in Hm. injection Hm as <-. rewrite tick_fileId.
           now apply (Hothers j).
        -- rewrite fire_nth_other in Hm by assumption.
           now apply (Hothers m).
    + rewrite Hfire. cbn [fst snd]. split; [exact Hg|exact Hothers].
Qed.

Lemma runTimers_tracks events us sel u g :
  tracks k us sel u g ->
  tracks k (fst (runTimers events us sel)) (snd (runTimers events us sel))
         (fst (advanceAll k events u g)) (snd (advanceAll k events u g)).
Proof.
  revert us sel u g.
  induction events as [|[j r] events IH]; intros us sel u g H.
  - exact H.
  - simpl. apply (fire_tracks j r) in H.
    destruct (fire j r us sel) as [us' sel'].
    destruct (advance k (j, r) u g) as [u' g'].
    now apply IH.
Qed.

(** *** The upload and its record, alone *)

Lemma advance_inPhase e u g :
  inPhase u g ->
  inPhase (fst (advance k e u g)) (snd (advance k e u g)).
Proof.
  intro H. unfold advance.
  destruct (Nat.eqb (fst e) k); cbn [andb]; [|exact H].
  destruct (interval u) eqn:Hset; [|exact H].
  destruct (Qle_bool 100 (local_progress u + increment (snd e))) eqn:E.
  - right. now repeat split.
  - left. cbn. repeat split.
    + destruct H as [(_ & Hs & _)|(Hc & _)]; [exact Hs|congruence].
    + apply Qnot_le_lt. intro Hle. apply Qle_bool_iff in Hle. congruence.
Qed.

Lemma follows_refl g : follows g g.
Proof. repeat split. apply Qle_refl. Qed.

Lemma follows_trans g1 g2 g3 :
  follows g1 g2 -> follows g2 g3 -> follows g1 g3.
Proof.
  intros (F12 & P12 & S12) (F23 & P23 & S23). repeat split.
  - congruence.
  - eapply Qle_trans; eassumption.
  - intro Hc. specialize (S12 Hc). subst g2. auto.
Qed.

Lemma advance_follows e u g :
  inPhase u g -> validDraw (snd e) ->
  follows g (snd (advance k e u g)).
Proof.
  intros H Hr. destruct (increment_bounds _ Hr) as [H0 _].
  unfold advance.
  destruct (Nat.eqb (fst e) k); cbn [andb]; [|apply follows_refl].
  destruct (interval u) eqn:Hset; [|apply follows_refl].
  destruct H as [(_ & Hs & Hp & Hlt)|(Hc & _)]; [|congruence].
  destruct (Qle_bool 100 (local_progress u + increment (snd e)));
    cbn [snd]; repeat split; cbn [progress complete withProgress].
  - rewrite Hp. apply Qlt_le_weak, Hlt.
  - congruence.
  - rewrite Hp. lra.
  - congruence.
Qed.

Lemma advanceAll_app events1 events2 u g :
  advanceAll k (events1 ++ events2) u g
  = advanceAll k events2 (fst (advanceAll k events1 u g))
               (snd (advanceAll k events1 u g)).
Proof.
  revert u g. induction events1 as [|e events1 IH]; intros u g.
  - reflexivity.
  - simpl. destruct (advance k e u g) as [u' g']. apply IH.
Qed.

Lemma advanceAll_inPhase events u g :
  inPhase u g ->
  inPhase (fst (advanceAll k events u g)) (snd (advanceAll k events u g)).
Proof.
  revert u g. induction events as [|e events IH]; intros u g H.
  - exact H.
  - simpl. apply (advance_inPhase e) in H.
    destruct (advance k e u g) as [u' g']. now apply IH.
Qed.

Lemma advanceAll_follows events u g :
  inPhase u g -> validEvents events ->
  follows g (snd (advanceAll k events u g)).
Proof.
  intros H Hv. revert u g H.
  induction Hv as [|e events He _ IH]; intros u g H.
  - apply follows_refl.
  - simpl. pose proof (advance_follows e u g H He) as Hstep.
    apply (advance_inPhase e) in H.
    destruct (advance k e u g) as [u' g'].
    eapply follows_trans; [exact Hstep|now apply IH].
Qed.

(** Enough increments bring the record to 100: there is an event that
    finds it uploading below 100 and leaves it completed at 100. *)
Lemma advanceAll_completes events u g :
  inPhase u g -> interval u = true -> validEvents events ->
  (100 <= local_progress u + 15 * sumDraws k events)%Q ->
  exists n,
    (n < List.length events)%nat
    /\ status (snd (advanceAll k (firstn n events) u g)) = uploading
    /\ (progress (snd (advanceAll k (firstn n events) u g)) < 100)%Q
    /\ status (snd (advanceAll k (firstn (S n) events) u g)) = completed
    /\ progress (snd (advanceAll k (firstn (S n) events) u g)) = 100%Q.
Proof.
  intros H Hset Hv. revert u g H Hset.
  induction Hv as [|[j r] events He _ IH]; intros u g H Hset Hsum.
  - exfalso. destruct H as [(_ & _ & _ & Hlt)|(Hc & _)]; [|congruence].
    simpl in Hsum. lra.
  - assert (Hnow : status g = uploading /\ (progress g < 100)%Q).
    { destruct H as [(_ & Hs & Hp & Hlt)|(Hc & _)]; [|congruence].
      rewrite Hp. now split. }
    pose proof (advance_inPhase (j, r) u g H) as H'.
    cbn [sumDraws] in Hsum.
    destruct (Nat.eqb_spec j k) as [->|Hne].
    + destruct (Qle_bool 100 (local_progress u + increment r)) eqn:E.
      * exists 0%nat. cbn [firstn advanceAll List.length].
        unfold advance. cbn [fst snd]. rewrite Nat.eqb_refl, Hset, E.
        cbn. repeat split; try tauto. lia.
      * assert (Hnext :
                  advance k (k, r) u g
                  = (mkUpload (fileId u) (local_progress u + increment r)
                              true,
                     withProgress (local_progress u + increment r) g)).
        { unfold advance. cbn [fst snd].
          now rewrite Nat.eqb_refl, Hset, E. }
        rewrite Hnext in H'. cbn [fst snd] in H'.
        destruct (IH _ _ H' eq_refl) as (n & Hn & Hrest).
        { cbn [local_progress]. unfold increment. lra. }
        exists (S n). cbn [firstn advanceAll List.length].
        rewrite Hnext. split; [lia|exact Hrest].
    + rewrite (advance_other j r u g Hne) in H'.
      destruct (IH _ _ H Hset Hsum) as (n & Hn & Hrest).
      exists (S n). cbn [firstn advanceAll List.length].
      rewrite (advance_other j r u g Hne).
      split; [lia|exact Hrest].
Qed.


End OneUpload.

(** ** The life of a staged record *)

Lemma advanceAll_fileId k events u g :
  fileId (fst (advanceAll k events u g)) = fileId u.
Proof.
  revert u g. induction events as [|e events IH]; intros u g.
  - reflexivity.
  - simpl. pose proof (advance_fileId k e u g) as He.
    destruct (advance k e u g) as [u' g']. rewrite IH. exact He.
Qed.

Lemma observed_advanceAll k events us sel u g n :
  tracks k us sel u g ->
  observed (fileId u) n events us sel
  = Some (snd (advanceAll k (firstn n events) u g)).
Proof.
  intro H. apply (runTimers_tracks k (firstn n events)) in H.
  destruct H as (_ & H & _). rewrite advanceAll_fileId in H. exact H.
Qed.

Lemma advanceAll_later k events u g n m :
  (n <= m)%nat ->
  advanceAll k (firstn m events) u g
  = advanceAll k (firstn (m - n) (skipn n events))
               (fst (advanceAll k (firstn n events) u g))
               (snd (advanceAll k (firstn n events) u g)).
Proof.
  intro Hle. now rewrite (firstn_split n m events Hle), advanceAll_app.
Qed.

(** The uploads of a batch whose identifiers are pairwise distinct and
    distinct from those already in the collection: each upload tracks the
    record staged for it. *)
Lemma batch_tracks prev newFiles k f :
  NoDup (map id (prev ++ newFiles)) ->
  nth_error newFiles k = Some f ->
  tracks k (map (fun file => simulateUpload (id file)) newFiles)
         (prev ++ newFiles) (simulateUpload (id f)) f.
Proof.
  intros Hnd Hk. repeat split.
  - now rewrite nth_error_map, Hk.
  - cbn [fileId simulateUpload]. apply lookup_NoDup; [exact Hnd|].
    apply in_or_app. right. eapply nth_error_In, Hk.
  - intros j u' Hj Hjk. cbn [fileId simulateUpload].
    rewrite nth_error_map in Hj.
    destruct (nth_error newFiles j) as [f'|] eqn:Hf'; [|discriminate].
    injection Hj as <-. cbn [fileId simulateUpload]. intro E.
    apply Hjk.
    rewrite map_app in Hnd. apply NoDup_app_remove_l in Hnd.
    rewrite NoDup_nth_error in Hnd. apply Hnd.
    + rewrite length_map. apply nth_error_Some. congruence.
    + rewrite !nth_error_map, Hf', Hk. simpl. congruence.
Qed.

(** C1. A record staged by a batch, with identifiers distinct in the
    collection, under any sequence of timer events with draws of
    [Math.random]: the record stays in the collection, with the same
    name, size, type, identifier and preview, and is either uploading
    below 100 or completed at exactly 100; its progress never decreases;
    once it is completed the record never changes again; at most one
    event takes it from uploading below 100 to completed at 100, and when
    the increments of its timer add up to 100 there is such an event. *)
Theorem staged_record_progress_lifecycle
        (prev newFiles : list FileWithProgress) (k : nat)
        (f : FileWithProgress) (events : list (nat * Q)) :
  NoDup (map id (prev ++ newFiles)) ->
  nth_error newFiles k = Some f ->
  progress f = 0%Q -> status f = uploading ->
  validEvents events ->
  let us := map (fun file => simulateUpload (id file)) newFiles in
  let sel := prev ++ newFiles in
  let seen n := observed (id f) n events us sel in
  seen 0%nat = Some f
  /\ (forall n,
         exists g,
           seen n = Some g /\ fixedPart g = fixedPart f
           /\ ((status g = uploading /\ (progress g < 100)%Q)
               \/ (status g = completed /\ progress g = 100%Q)))
  /\ (forall n m g g',
         (n <= m)%nat -> seen n = Some g -> seen m = Some g' ->
         (progress g <= progress g')%Q)
  /\ (forall n m g,
         (n <= m)%nat -> seen n = Some g -> status g = completed ->
         seen m = Some g)
  /\ (forall n m,
         completesAt (id f) n events us sel ->
         completesAt (id f) m events us sel -> n = m)
  /\ ((100 <= 15 * sumDraws k events)%Q ->
      exists n,
        (n < List.length events)%nat /\ completesAt (id f) n events us sel).
Proof.
  intros Hnd Hk Hp Hs Hv us sel seen.
  pose proof (batch_tracks prev newFiles k f Hnd Hk) as T.
  set (u0 := simulateUpload (id f)) in T.
  assert (P0 : inPhase u0 f).
  { left. split; [reflexivity|]. split; [exact Hs|]. split; [exact Hp|].
    cbn. lra. }
  assert (Hseen : forall n,
             seen n = Some (snd (advanceAll k (firstn n events) u0 f))).
  { intro n. apply (observed_advanceAll k events us sel u0 f n T). }
  assert (Hlater : forall n m,
             (n <= m)%nat ->
             follows (snd (advanceAll k (firstn n events) u0 f))
                     (snd (advanceAll k (firstn m events) u0 f))).
  { intros n m Hle. rewrite (advanceAll_later k events u0 f n m Hle).
    apply advanceAll_follows.
    - now apply advanceAll_inPhase.
    - now apply validEvents_firstn, validEvents_skipn. }
  assert (Hkeep : forall n m g,
             (n <= m)%nat -> seen n = Some g -> status g = completed ->
             seen m = Some g).
  { intros n m g Hle Hn Hc. rewrite Hseen in *. injection Hn as <-.
    destruct (Hlater n m Hle) as (_ & _ & Hsame). now rewrite Hsame. }
  split; [exact (Hseen 0%nat)|]. split; [|split; [|split; [exact Hkeep|split]]].
  - intro n. eexists. split; [apply Hseen|]. split.
    + destruct (Hlater 0%nat n (Nat.le_0_l n)) as (Hfixed & _). exact Hfixed.
    + destruct (advanceAll_inPhase k (firstn n events) u0 f P0)
        as [(_ & Hs' & Hp' & Hlt)|(_ & Hc & Hp')].
      * left. rewrite Hp'. now split.
      * right. now split.
  - intros n m g g' Hle Hn Hm. rewrite Hseen in *.
    injection Hn as <-. injection Hm as <-.
    now destruct (Hlater n m Hle) as (_ & Hmono & _).
  - assert (Hlt : forall n m,
               completesAt (id f) n events us sel ->
               completesAt (id f) m events us sel -> ~ (n < m)%nat).
    { intros n m (g1 & g1' & _ & Hn' & _ & _ & Hc & _)
             (g2 & _ & Hm & _ & Hup & _) Hnm.
      fold (seen (S n)) in Hn'. fold (seen m) in Hm.
      rewrite (Hkeep (S n) m g1' Hnm Hn' Hc) in Hm.
      injection Hm as <-. congruence. }
    intros n m Hn Hm.
    pose proof (Hlt n m Hn Hm). pose proof (Hlt m n Hm Hn). lia.
  - intro Hsum.
    destruct (advanceAll_completes k events u0 f P0 eq_refl Hv)
      as (n & Hn & H1 & H2 & H3 & H4).
    { cbn. lra. }
    exists n. split; [exact Hn|].
    exists (snd (advanceAll k (firstn n events) u0 f)),
           (snd (advanceAll k (firstn (S n) events) u0 f)).
    fold (seen n). fold (seen (S n)). rewrite !Hseen. now repeat split.
Qed.

Lemma validEvents_halves : validEvents halves.
Proof.
  unfold validEvents, halves. simpl.
  repeat (constructor; [unfold validDraw; simpl; lra|]). constructor.
Qed.

Lemma staged_record_progress_lifecycle_witness :
  observed "id-0" 0 halves
           (map (fun file => simulateUpload (id file)) sampleBatch)
           ([] ++ sampleBatch)
  = Some (staged photo "id-0" (Some "data:image/png;base64,AAAA"))
  /\ exists n,
      (n < List.length halves)%nat
      /\ completesAt "id-0" n halves
                     (map (fun file => simulateUpload (id file)) sampleBatch)
                     ([] ++ sampleBatch).
Proof.
  assert (Hnd : NoDup (map id ([] ++ sampleBatch))).
  { simpl. repeat constructor; simpl; intuition discriminate. }
  destruct (staged_record_progress_lifecycle
              [] sampleBatch 0
              (staged photo "id-0" (Some "data:image/png;base64,AAAA"))
              halves Hnd eq_refl eq_refl eq_refl validEvents_halves)
    as (H0 & _ & _ & _ & _ & Hlive).
  split; [exact H0|]. apply Hlive. vm_compute. discriminate.
Defined.

(** ** Previews and the staging of a batch *)



Lemma generatePreview_failed env file :
  startsWith (file_type file) "image/" = true ->
  readAsDataURL env file = Failed ->
  generatePreview env file = Pending.
Proof. unfold generatePreview. now intros -> ->. Qed.

Lemma accepted_validateFile props file :
  accepted props file = true -> validateFile props file = (true, []).
Proof.
  unfold accepted, validateFile.
  now destruct (file_size file >? maxFileSize props * 1024 * 1024).
Qed.



Lemma tick_fixedPart r u sel :
  map fixedPart (snd (tick r u sel)) = map fixedPart sel.
Proof.
  unfold tick. destruct (interval u); [|reflexivity].
  destruct (Qle_bool 100 (local_progress u + increment r)); cbn [snd];
    rewrite map_map; apply map_ext; intro f;
      now destruct (String.eqb (id f) (fileId u)).
Qed.

Lemma fire_fixedPart j r us sel :
  map fixedPart (snd (fire j r us sel)) = map fixedPart sel.
Proof.
  pose proof (fire_nth j r us sel) as H.
  destruct (nth_error us j) as [u|].
  - destruct H as [_ ->]. apply tick_fixedPart.
  - now rewrite H.
Qed.











(** The sample batch of a photo, a movie above the limit and a text file,
    with reads that load and timers that fire long enough. *)
Example sample_batch_is_staged :
  handleFiles defaultProps loadingEnv (Some [photo; movie; notes]) emptyWorld
  = (mkWorld
       (mkState false
                [mkStaged "photo.png" (5 * megabyte) "image/png" "id-0" 100
                          (Some "data:image/png;base64,AAAA") completed;
                 mkStaged "notes.txt" 2048 "text/plain" "id-1" 100 None
                          completed]
                false)
       [ToastCall (mkToast "File too large" "movie.mp4 exceeds 25MB limit"
                           (Some "destructive"));
        OnFileSelect sampleBatch;
        ToastCall (mkToast "Upload completed"
                           "2 file(s) uploaded successfully" None)],
     Resolved tt).
Proof. reflexivity. Qed.

(** A failed read of an accepted image leaves the promise of its preview
    pending, and [handleFiles] suspended at the [await]: neither the file
    nor any file after it in the batch is validated or staged, and
    [isUploading] stays set. *)
Lemma failed_read_suspends_batch props env before file rest w cs newFiles :
  stageLoop props env before [] = (cs, Resolved newFiles) ->
  accepted props file = true ->
  startsWith (file_type file) "image/" = true ->
  readAsDataURL env file = Failed ->
  generatePreview env file = Pending
  /\ handleFiles props env (Some (before ++ file :: rest)) w
     = (mkWorld (mkState (dragActive (state w)) (selectedFiles (state w))
                         true)
                (calls w ++ cs),
        Pending).
Proof.
  intros Hbefore Hacc Himg Hfail.
  pose proof (generatePreview_failed env file Himg Hfail) as Hpending.
  split; [exact Hpending|].
  rewrite handleFiles_Some, stageLoop_app, Hbefore.
  cbn [stageLoop]. rewrite (accepted_validateFile _ _ Hacc), Hpending.
  cbn [fst snd]. now rewrite app_nil_r.
Qed.

(** C3 fails on the code. The sample photo, an accepted image, is
    submitted with the sample notes, and its read fails: the preview does
    not resolve to "no preview" but stays pending, and [handleFiles]
    stays suspended, with an empty collection and [isUploading] set. *)
Theorem failed_preview_read_never_settles :
  accepted defaultProps photo = true
  /\ startsWith (file_type photo) "image/" = true
  /\ readAsDataURL failingEnv photo = Failed
  /\ generatePreview failingEnv photo = Pending
  /\ generatePreview failingEnv photo <> Resolved None
  /\ handleFiles defaultProps failingEnv (Some [photo; notes]) emptyWorld
     = (mkWorld (mkState false [] true) [], Pending).
Proof.
  repeat split; try reflexivity. discriminate.
Qed.

End FileUploadFacts.

(** * More properties of FileManager.tsx *)

Module FileManagerMore.

Import FileManager FileManagerFacts.

(** ** The order of the view *)

Lemma insertPure_ext {A} (f g : A -> A -> Z) x l :
  (forall y, In y l -> f x y = g x y) -> insertPure f x l = insertPure g x l.
Proof.
  induction l as [|y l IH]; intro H; simpl.
  - reflexivity.
  - rewrite (H y (or_introl eq_refl)), IH; [reflexivity|].
    intros z Hz. apply H. now right.
Qed.

Lemma sortPure_ext {A} (f g : A -> A -> Z) l :
  (forall x y, In x l -> In y l -> f x y = g x y) ->
  sortPure f l = sortPure g l.
Proof.
  induction l as [|x l IH]; intro H; simpl.
  - reflexivity.
  - rewrite IH by (intros a b Ha Hb; apply H; now right).
    apply insertPure_ext. intros y Hy. apply H; [now left|right].
    eapply Permutation_in; [apply sortPure_Permutation|exact Hy].
Qed.

Section Ordered.

Context {A : Type}.
Variable key : A -> Z.

Lemma insertPure_ordered x l :
  StronglySorted (fun a b => key a <= key b) l ->
  StronglySorted (fun a b => key a <= key b)
                 (insertPure (ascending key) x l).
Proof.
  induction 1 as [|y l Hs IH Hy]; simpl.
  - repeat constructor.
  - unfold ascending at 1. destruct (Z.leb_spec (key x - key y) 0).
    + constructor; [now constructor|].
      constructor; [lia|].
      eapply Forall_impl; [|exact Hy]. simpl. intros z Hz. lia.
    + constructor; [exact IH|].
      eapply Permutation_Forall;
        [apply Permutation_sym, insertPure_Permutation|].
      constructor; [lia|exact Hy].
Qed.

Lemma sortPure_ordered l :
  StronglySorted (fun a b => key a <= key b) (sortPure (ascending key) l).
Proof.
  induction l as [|x l IH]; simpl.
  - constructor.
  - now apply insertPure_ordered.
Qed.

End Ordered.

Lemma sortPure_ordered_descending {A} (key : A -> Z) l :
  StronglySorted (fun a b => key b <= key a) (sortPure (descending key) l).
Proof.
  rewrite (sortPure_ext (descending key) (ascending (fun x => - key x)) l).
  - pose proof (sortPure_ordered (fun x => - key x) l) as H.
    induction H as [|a s _ IH Ha]; constructor; [exact IH|].
    eapply Forall_impl; [|exact Ha]. simpl. intros b Hb. lia.
  - intros x y _ _. unfold descending, ascending. lia.
Qed.

(** A comparison function that answers as [f] on the elements of the
    list, without reading the clock, sorts as [f] does. *)
Lemma insertM_pure_on {A} (cmp : A -> A -> M Z) (f : A -> A -> Z) x l
      clock k :
  (forall y, In y l -> forall k', cmp x y clock k' = (f x y, k')) ->
  insertM cmp x l clock k = (insertPure f x l, k).
Proof.
  induction l as [|y l IH]; intro H.
  - reflexivity.
  - rewrite insertM_cons, (H y (or_introl eq_refl)). cbn [insertPure].
    destruct (f x y <=? 0); [reflexivity|].
    rewrite IH; [reflexivity|]. intros z Hz. apply H. now right.
Qed.

Lemma sortM_pure_on {A} (cmp : A -> A -> M Z) (f : A -> A -> Z) l clock k :
  (forall x y, In x l -> In y l ->
               forall k', cmp x y clock k' = (f x y, k')) ->
  sortM cmp l clock k = (sortPure f l, k).
Proof.
  induction l as [|x l IH]; intro H.
  - reflexivity.
  - rewrite sortM_cons, IH by (intros a b Ha Hb; apply H; now right).
    apply insertM_pure_on. intros y Hy. apply H; [now left|right].
    eapply Permutation_in; [apply sortPure_Permutation|exact Hy].
Qed.

Lemma compareFn_by_date_dated localeCompare order x y clock k :
  uploadDate x <> None -> uploadDate y <> None ->
  compareFn localeCompare by_date order x y clock k
  = (match order with
     | asc => ascending dateKey x y
     | desc => descending dateKey x y
     end, k).
Proof.
  intros Hx Hy. unfold compareFn, comparison, ascending, descending, dateKey.
  destruct (uploadDate x); [|congruence].
  destruct (uploadDate y); [|congruence].
  now destruct order.
Qed.

(** X1. The view sorted by size is in non-decreasing order of size when
    the sort order is ascending and in non-increasing order when it is
    descending, ties included; the same holds for the sort by date when
    every record that passes the filter has an upload date. *)
Theorem view_is_ordered_by_key
        (localeCompare : string -> string -> Z)
        (files : list FileWithProgress) (st : State) (clock : Clock) :
  let view := run (filteredAndSortedFiles localeCompare files st) clock in
  (sortBy st = by_size -> sortOrder st = asc ->
   StronglySorted (fun a b => size a <= size b) view)
  /\ (sortBy st = by_size -> sortOrder st = desc ->
      StronglySorted (fun a b => size b <= size a) view)
  /\ (sortBy st = by_date ->
      (forall file, In file files -> keep st file = true ->
                    uploadDate file <> None) ->
      match sortOrder st with
      | asc => StronglySorted (fun a b => dateKey a <= dateKey b) view
      | desc => StronglySorted (fun a b => dateKey b <= dateKey a) view
      end).
Proof.
  intro view. subst view. unfold run, filteredAndSortedFiles.
  split; [|split].
  - intros -> ->. rewrite sort_by_size_ascending.
    apply (sortPure_ordered size).
  - intros -> ->. rewrite sort_by_size_descending.
    apply (sortPure_ordered_descending size).
  - intros -> Hdated.
    assert (Hd : forall file, In file (filter (keep st) files) ->
                              uploadDate file <> None).
    { intros file Hin. apply filter_In in Hin as [Hin Hk]. now apply Hdated. }
    rewrite (sortM_pure_on _ (match sortOrder st with
                              | asc => ascending dateKey
                              | desc => descending dateKey
                              end)).
    + destruct (sortOrder st); cbn [fst].
      * apply (sortPure_ordered dateKey).
      * apply (sortPure_ordered_descending dateKey).
    + intros x y Hx Hy k'.
      rewrite (compareFn_by_date_dated _ _ x y clock k' (Hd x Hx) (Hd y Hy)).
      now destruct (sortOrder st).
Qed.

Lemma view_is_ordered_by_key_witness :
  StronglySorted (fun a b => size b <= size a)
    (run (filteredAndSortedFiles byteCompare [s50; dated5; s10; undated; s30]
                                 (sortedBy by_size desc)) (fun _ => 0))
  /\ StronglySorted (fun a b => dateKey a <= dateKey b)
       (run (filteredAndSortedFiles byteCompare [dated5; dated5]
                                    (sortedBy by_date asc)) (fun _ => 0)).
Proof.
  split.
  - apply (view_is_ordered_by_key byteCompare
             [s50; dated5; s10; undated; s30] (sortedBy by_size desc)
             (fun _ => 0)); reflexivity.
  - apply (proj2 (proj2 (view_is_ordered_by_key byteCompare [dated5; dated5]
                           (sortedBy by_date asc) (fun _ => 0)))).
    + reflexivity.
    + intros file [<-|[<-|[]]] _; discriminate.
Defined.

(** ** The filter by category *)

Lemma keep_filterType c st file :
  keep (control (SetFilterType c) st) file
  = matchesSearch st file
    && (String.eqb c "all" || String.eqb (getFileCategory file) c).
Proof. reflexivity. Qed.

Lemma view_length localeCompare files st clock :
  List.length (run (filteredAndSortedFiles localeCompare files st) clock)
  = List.length (filter (keep st) files).
Proof. apply Permutation_length, sortM_Permutation. Qed.

Lemma view_In localeCompare files st clock file :
  In file (run (filteredAndSortedFiles localeCompare files st) clock)
  <-> In file files /\ keep st file = true.
Proof.
  rewrite <- filter_In. split; apply Permutation_in;
    [|apply Permutation_sym]; apply sortM_Permutation.
Qed.

Lemma filter_none {A} (p : A -> bool) l :
  (forall x, In x l -> p x = false) -> filter p l = [].
Proof.
  induction l as [|x l IH]; intro H; simpl.
  - reflexivity.
  - rewrite (H x (or_introl eq_refl)). apply IH.
    intros y Hy. apply H. now right.
Qed.

Lemma kept_by_categories st (files : list FileWithProgress) :
  list_sum
    (map (fun c =>
            List.length (filter (keep (control (SetFilterType c) st)) files))
         categories)
  = List.length (filter (keep (control (SetFilterType "all") st)) files).
Proof.
  induction files as [|file files IH].
  - reflexivity.
  - unfold categories, fileTypes in *. cbn [tl map list_sum] in *.
    cbn [filter]. rewrite !keep_filterType.
    destruct (matchesSearch st file); cbn [andb].
    + destruct (getFileCategory_cases file)
        as [E|[E|[E|[E|[E|[E|[E|[]]]]]]]];
        rewrite <- E; cbn [String.eqb Ascii.eqb Bool.eqb orb andb];
        cbn [List.length]; unfold list_sum in *; cbn [fold_right] in *; lia.
    + exact IH.
Qed.

(** X2. The seven category filters split the view of the filter "all":
    under the same search term, a record is in the view of a category
    exactly when it is in the view of "all" and has that category, and
    the counts of the seven views add up to the count of "all". *)
Theorem category_views_partition
        (localeCompare : string -> string -> Z)
        (files : list FileWithProgress) (st : State) (clock : Clock) :
  let view c :=
    run (filteredAndSortedFiles localeCompare files
                                (control (SetFilterType c) st)) clock in
  (forall c file,
      In c categories ->
      (In file (view c) <-> In file (view "all") /\ getFileCategory file = c))
  /\ list_sum (map (fun c => List.length (view c)) categories)
     = List.length (view "all").
Proof.
  intro view. subst view. split.
  - intros c file Hc. rewrite !view_In, !keep_filterType.
    assert (Hall : String.eqb c "all" = false).
    { unfold categories, fileTypes in Hc. cbn [tl] in Hc.
      destruct Hc as [E|[E|[E|[E|[E|[E|[E|[]]]]]]]]; now rewrite <- E. }
    rewrite Hall. change (String.eqb "all" "all") with true. cbn [orb].
    rewrite andb_true_r, andb_true_iff, String.eqb_eq. tauto.
  - rewrite view_length, <- kept_by_categories.
    f_equal. apply map_ext. intro c. apply view_length.
Qed.

Lemma category_views_partition_witness :
  In notes_docx
     (run (filteredAndSortedFiles byteCompare
                                  [report_pdf; photo_png; notes_docx]
                                  (control (SetFilterType "document")
                                           initialState)) (fun _ => 0)).
Proof.
  apply (proj1 (category_views_partition
                  byteCompare [report_pdf; photo_png; notes_docx]
                  initialState (fun _ => 0)) "document" notes_docx).
  - unfold categories, fileTypes. simpl. tauto.
  - split; [|reflexivity]. simpl. tauto.
Defined.

(** X3. A filter value that is neither "all" nor one of the seven
    categories matches no record: the view is empty whatever the
    collection and the search term. *)
Theorem unknown_filter_gives_empty_view
        (localeCompare : string -> string -> Z)
        (files : list FileWithProgress) (st : State) (clock : Clock) :
  ~ In (filterType st) fileTypes ->
  run (filteredAndSortedFiles localeCompare files st) clock = []
  /\ totalSize (run (filteredAndSortedFiles localeCompare files st) clock)
     = 0.
Proof.
  intro Hnot.
  assert (Hempty : run (filteredAndSortedFiles localeCompare files st) clock
                   = []).
  { unfold run, filteredAndSortedFiles. rewrite filter_none; [reflexivity|].
    intros file _. unfold keep, matchesFilter.
    destruct (String.eqb_spec (filterType st) "all") as [E|_].
    - exfalso. apply Hnot. rewrite E. now left.
    - destruct (String.eqb_spec (getFileCategory file) (filterType st))
        as [E|_]; [|apply andb_false_r].
      exfalso. apply Hnot. rewrite <- E. right.
      apply getFileCategory_cases. }
  now rewrite Hempty.
Qed.

Lemma unknown_filter_gives_empty_view_witness :
  run (filteredAndSortedFiles byteCompare [report_pdf; photo_png; notes_docx]
                              (filterBy "Document")) (fun _ => 0)
  = [].
Proof.
  apply (unknown_filter_gives_empty_view
           byteCompare [report_pdf; photo_png; notes_docx]
           (filterBy "Document") (fun _ => 0)).
  unfold fileTypes. simpl.
  intros [E|[E|[E|[E|[E|[E|[E|[E|[]]]]]]]]]; discriminate E.
Defined.

(** ** The search term *)

Lemma append_nil_r (s : string) : (s ++ "")%string = s.
Proof. induction s as [|c s IH]; simpl; [reflexivity|now rewrite IH]. Qed.

Lemma append_assoc (a b c : string) :
  ((a ++ b) ++ c)%string = (a ++ (b ++ c))%string.
Proof. induction a as [|x a IH]; simpl; [reflexivity|now rewrite IH]. Qed.

Lemma prefix_iff p s :
  String.prefix p s = true <-> exists b, s = (p ++ b)%string.
Proof.
  revert s. induction p as [|c p IH]; intro s.
  - split; [intros _; now exists s|now destruct s].
  - destruct s as [|d s]; simpl.
    + split; [discriminate|intros [b Hb]; discriminate].
    + destruct (Ascii.ascii_dec c d) as [->|Hne].
      * rewrite IH. split; intros [b Hb]; exists b; congruence.
      * split; [discriminate|intros [b Hb]; congruence].
Qed.

(** [includes] is the occurrence of a substring. *)
Lemma includes_iff s sub :
  JS.includes s sub = true <-> exists a b, s = (a ++ sub ++ b)%string.
Proof.
  induction s as [|c s IH]; cbn [JS.includes].
  - rewrite orb_false_r, prefix_iff. split.
    + intros [b Hb]. now exists ""%string, b.
    + intros (a & b & H). destruct a; simpl in H; [now exists b|discriminate].
  - rewrite orb_true_iff, prefix_iff, IH. split.
    + intros [[b Hb]|(a & b & H)].
      * now exists ""%string, b.
      * exists (String c a), b. simpl. now rewrite H.
    + intros (a & b & H). destruct a as [|d a]; simpl in H.
      * left. now exists b.
      * right. exists a, b. congruence.
Qed.

Lemma includes_trans s t u :
  JS.includes s t = true -> JS.includes t u = true ->
  JS.includes s u = true.
Proof.
  rewrite !includes_iff. intros (a & b & ->) (c & d & ->).
  exists (a ++ c)%string, (d ++ b)%string.
  now rewrite !append_assoc.
Qed.

Lemma filter_implies {A} (p q : A -> bool) l :
  (forall x, p x = true -> q x = true) ->
  (List.length (filter p l) <= List.length (filter q l))%nat.
Proof.
  intro H. induction l as [|x l IH]; simpl.
  - lia.
  - destruct (p x) eqn:Hp.
    + rewrite (H x Hp). simpl. lia.
    + destruct (q x); simpl; lia.
Qed.

(** X4. A search term that contains the current one, letter case apart,
    narrows the view: every record of the new view is in the current
    view, and the new view is not longer. Typing further characters
    after the term is such a change. *)
Theorem longer_search_term_narrows_view
        (localeCompare : string -> string -> Z)
        (files : list FileWithProgress) (st : State) (term : string)
        (clock : Clock) :
  JS.includes (JS.toLowerCase term) (JS.toLowerCase (searchTerm st)) = true ->
  let view := run (filteredAndSortedFiles localeCompare files st) clock in
  let narrowed :=
    run (filteredAndSortedFiles localeCompare files
                                (control (SetSearchTerm term) st)) clock in
  (forall file, In file narrowed -> In file view)
  /\ (List.length narrowed <= List.length view)%nat.
Proof.
  intros Hterm view narrowed. subst view narrowed.
  assert (Hkeep : forall file,
             keep (control (SetSearchTerm term) st) file = true ->
             keep st file = true).
  { intro file. unfold keep, matchesSearch.
    change (searchTerm (control (SetSearchTerm term) st)) with term.
    change (matchesFilter (control (SetSearchTerm term) st) file)
      with (matchesFilter st file).
    rewrite !andb_true_iff. intros [Hs Hf]. split; [|exact Hf].
    eapply includes_trans; eassumption. }
  split.
  - intro file. rewrite !view_In. intros [Hin Hk]. auto.
  - rewrite !view_length. now apply filter_implies.
Qed.

Lemma longer_search_term_narrows_view_witness :
  (List.length
     (run (filteredAndSortedFiles byteCompare
             [report_pdf; photo_png; notes_docx]
             (control (SetSearchTerm "NOTES")
                      (control (SetSearchTerm "o") initialState)))
          (fun _ => 0%Z))
   <= List.length
        (run (filteredAndSortedFiles byteCompare
                [report_pdf; photo_png; notes_docx]
                (control (SetSearchTerm "o") initialState))
             (fun _ => 0%Z)))%nat.
Proof.
  apply (longer_search_term_narrows_view
           byteCompare [report_pdf; photo_png; notes_docx]
           (control (SetSearchTerm "o") initialState) "NOTES" (fun _ => 0%Z)).
  reflexivity.
Defined.

(** ** Icons *)

(** X5. The three copies of [getFileIcon] choose the same icon for the
    same mime type. The icon follows the category for images, videos,
    audio, pdf and archives, and is the plain file icon for the category
    "other"; the category "document" has no icon of its own: a document
    gets the plain file icon, or the archive icon when its mime type
    also contains "zip" or "rar". *)
Theorem icons_and_categories :
  (forall (file : FileUpload.File) (staged : FileUpload.FileWithProgress)
          (managed : FileWithProgress),
      FileUpload.file_type file = FileUpload.type staged ->
      FileUpload.type staged = type managed ->
      FileUpload.getFileIcon file = FileUpload.previewFileIcon staged
      /\ FileUpload.previewFileIcon staged = getFileIcon managed)
  /\ (forall managed,
         (getFileCategory managed = "image" ->
          getFileIcon managed = JS.FileImageIcon)
         /\ (getFileCategory managed = "video" ->
             getFileIcon managed = JS.VideoIcon)
         /\ (getFileCategory managed = "audio" ->
             getFileIcon managed = JS.MusicIcon)
         /\ (getFileCategory managed = "pdf" ->
             getFileIcon managed = JS.FileTextIcon)
         /\ (getFileCategory managed = "archive" ->
             getFileIcon managed = JS.ArchiveIcon)
         /\ (getFileCategory managed = "other" ->
             getFileIcon managed = JS.FileIcon)
         /\ (getFileCategory managed = "document" ->
             getFileIcon managed
             = if JS.includes (type managed) "zip"
                  || JS.includes (type managed) "rar"
               then JS.ArchiveIcon else JS.FileIcon)).
Proof.
  split.
  - intros file staged managed H1 H2.
    unfold FileUpload.getFileIcon, FileUpload.previewFileIcon, getFileIcon.
    rewrite H1, H2. now split.
  - intro managed. unfold getFileCategory, getFileIcon.
    destruct (JS.startsWith (type managed) "image/");
      [repeat split; intros; try discriminate; reflexivity|].
    destruct (JS.startsWith (type managed) "video/");
      [repeat split; intros; try discriminate; reflexivity|].
    destruct (JS.startsWith (type managed) "audio/");
      [repeat split; intros; try discriminate; reflexivity|].
    destruct (JS.includes (type managed) "pdf");
      [repeat split; intros; try discriminate; reflexivity|].
    destruct (JS.includes (type managed) "doc");
      destruct (JS.includes (type managed) "zip"
                || JS.includes (type managed) "rar");
      repeat split; intros; try discriminate; reflexivity.
Qed.

Lemma icons_and_categories_witness :
  getFileIcon notes_docx = JS.FileIcon
  /\ getFileIcon zipped_docs = JS.ArchiveIcon
  /\ getFileCategory zipped_docs = "document".
Proof.
  destruct icons_and_categories as [_ H].
  split; [|split].
  - rewrite (proj2 (proj2 (proj2 (proj2 (proj2 (proj2 (H notes_docx)))))));
      reflexivity.
  - rewrite (proj2 (proj2 (proj2 (proj2 (proj2 (proj2 (H zipped_docs)))))));
      reflexivity.
  - reflexivity.
Defined.

(** ** The selection *)

Lemma handleFileClick_NoDup props st file :
  NoDup (selectedFiles st) ->
  NoDup (selectedFiles (fst (handleFileClick props st file))).
Proof.
  intro H. unfold handleFileClick.
  destruct (allowMultiSelect props); [|exact H]. simpl.
  destruct (JS.arrayIncludes (selectedFiles st) (id file)) eqn:E.
  - now apply NoDup_filter.
  - assert (Hnot : ~ In (id file) (selectedFiles st)).
    { rewrite <- arrayIncludes_In, E. discriminate. }
    apply NoDup_app; [exact H|repeat constructor; intros []|].
    intros x Hx [<-|[]]. contradiction.
Qed.

Lemma act_selection props st a :
  NoDup (selectedFiles st) ->
  NoDup (selectedFiles (fst (act props st a)))
  /\ (forall i, In i (selectedFiles (fst (act props st a))) ->
                In i (selectedFiles st) \/ In i (clickedIds [a]))
  /\ (allowMultiSelect props = false ->
      selectedFiles (fst (act props st a)) = selectedFiles st).
Proof.
  intro H. destruct a as [file|fileId|file|c]; cbn [act fst clickedIds].
  - split; [now apply handleFileClick_NoDup|]. split.
    + intros i. unfold handleFileClick.
      destruct (allowMultiSelect props); simpl; [|tauto].
      destruct (JS.arrayIncludes (selectedFiles st) (id file)).
      * rewrite filter_In. tauto.
      * rewrite in_app_iff. simpl. tauto.
    + intro Hno. unfold handleFileClick. now rewrite Hno.
  - repeat split; auto.
  - repeat split; auto.
  - destruct c; repeat split; auto.
Qed.

(** X6. In every state that the user's actions reach from a state whose
    selection has no duplicate, clicks, deletions, downloads and changes
    of the query in any order, the selection has no duplicate, and it
    holds only identifiers that were selected at the start or that a
    click designated; without multi-selection it never changes. *)
Theorem selection_is_duplicate_free
        (props : Props) (st : State) (actions : list UserAction) :
  NoDup (selectedFiles st) ->
  NoDup (selectedFiles (fst (actAll props st actions)))
  /\ (forall i, In i (selectedFiles (fst (actAll props st actions))) ->
                In i (selectedFiles st) \/ In i (clickedIds actions))
  /\ (allowMultiSelect props = false ->
      selectedFiles (fst (actAll props st actions)) = selectedFiles st).
Proof.
  revert st. induction actions as [|a actions IH]; intros st H.
  - repeat split; auto.
  - cbn [actAll].
    destruct (act_selection props st a H) as (Ha & Hsub & Hsame).
    destruct (act props st a) as [st' cs]. cbn [fst] in *.
    destruct (IH st' Ha) as (Hnd & Hsub' & Hsame').
    destruct (actAll props st' actions) as [st'' cs']. cbn [fst] in *.
    split; [exact Hnd|]. split.
    + intros i Hi. destruct (Hsub' i Hi) as [Hin|Hin].
      * destruct (Hsub i Hin) as [H0|H0]; [now left|right].
        destruct a; simpl in *; tauto.
      * right. destruct a; simpl; tauto.
    + intro Hno. rewrite (Hsame' Hno). now apply Hsame.
Qed.

Lemma selection_is_duplicate_free_witness :
  NoDup (selectedFiles
           (fst (actAll hostProps initialState
                        [Click report_pdf; Click photo_png;
                         Delete "1"; Change ToggleSort;
                         Click report_pdf; Click report_pdf]))).
Proof.
  apply (selection_is_duplicate_free hostProps initialState).
  constructor.
Defined.

Lemma filter_out_absent (x : string) l :
  ~ In x l -> filter (fun y => negb (String.eqb y x)) l = l.
Proof.
  induction l as [|y l IH]; intro H; simpl.
  - reflexivity.
  - destruct (String.eqb_spec y x) as [->|_]; simpl.
    + exfalso. apply H. now left.
    + rewrite IH; [reflexivity|]. intro Hin. apply H. now right.
Qed.

Lemma filter_out_to_end (x : string) l :
  NoDup l -> In x l ->
  Permutation (filter (fun y => negb (String.eqb y x)) l ++ [x]) l.
Proof.
  induction 1 as [|y l Hy Hl IH]; intro Hin.
  - destruct Hin.
  - simpl. destruct (String.eqb_spec y x) as [->|Hne]; simpl.
    + rewrite (filter_out_absent x l Hy).
      apply Permutation_sym, Permutation_cons_append.
    + apply perm_skip, IH. destruct Hin; [congruence|assumption].
Qed.

(** X7. With multi-selection, two clicks on the same record cancel out.
    When the record was not selected the selection is exactly as before;
    when it was, its identifier has moved to the end and the other
    identifiers keep their order. *)
Theorem two_clicks_cancel_out
        (props : Props) (st : State) (file : FileWithProgress) :
  allowMultiSelect props = true ->
  NoDup (selectedFiles st) ->
  let twice :=
    fst (handleFileClick props (fst (handleFileClick props st file)) file) in
  (~ In (id file) (selectedFiles st) ->
   selectedFiles twice = selectedFiles st)
  /\ (In (id file) (selectedFiles st) ->
      selectedFiles twice
      = filter (fun id' => negb (String.eqb id' (id file)))
               (selectedFiles st) ++ [id file])
  /\ Permutation (selectedFiles twice) (selectedFiles st).
Proof.
  intros Hmulti Hnd twice. subst twice.
  assert (Hnotin : forall l, ~ In (id file) l ->
                             JS.arrayIncludes l (id file) = false).
  { intros l Hl. destruct (JS.arrayIncludes l (id file)) eqn:E;
      [|reflexivity]. now apply arrayIncludes_In in E. }
  unfold handleFileClick. rewrite Hmulti.
  cbn [fst setSelectedFiles selectedFiles].
  destruct (JS.arrayIncludes (selectedFiles st) (id file)) eqn:E.
  - apply arrayIncludes_In in E.
    rewrite Hnotin
      by (rewrite filter_In, negb_true_iff, String.eqb_neq; tauto).
    split; [tauto|]. split; [reflexivity|].
    now apply filter_out_to_end.
  - assert (Hnot : ~ In (id file) (selectedFiles st)).
    { rewrite <- arrayIncludes_In, E. discriminate. }
    assert (Hin : JS.arrayIncludes (selectedFiles st ++ [id file]) (id file)
                  = true).
    { apply arrayIncludes_In, in_or_app. right. now left. }
    rewrite Hin, filter_app, (filter_out_absent _ _ Hnot). simpl.
    rewrite String.eqb_refl. simpl. rewrite app_nil_r.
    split; [reflexivity|]. split; [tauto|apply Permutation_refl].
Qed.

Lemma two_clicks_cancel_out_witness :
  selectedFiles
    (fst (handleFileClick hostProps
            (fst (handleFileClick hostProps pdfSelected photo_png))
            photo_png))
  = selectedFiles pdfSelected.
Proof.
  apply (two_clicks_cancel_out hostProps pdfSelected photo_png eq_refl).
  - simpl. repeat constructor. intros [].
  - simpl. intros [E|[]]. discriminate E.
Defined.

End FileManagerMore.

(** * More properties of FileUpload.tsx *)

Module FileUploadMore.

Import JS FileUpload FileUploadFacts.

(** ** Removing a file *)

Lemma lookup_filter_out fileId sel :
  lookup fileId (filter (fun f => negb (String.eqb (id f) fileId)) sel)
  = None.
Proof.
  unfold lookup. induction sel as [|f sel IH]; simpl.
  - reflexivity.
  - destruct (String.eqb (id f) fileId) eqn:E; simpl; [exact IH|].
    now rewrite E.
Qed.

Lemma lookup_filter_other fileId j sel :
  j <> fileId ->
  lookup j (filter (fun f => negb (String.eqb (id f) fileId)) sel)
  = lookup j sel.
Proof.
  intro Hne. unfold lookup. induction sel as [|f sel IH]; simpl.
  - reflexivity.
  - destruct (String.eqb_spec (id f) fileId) as [E|_]; simpl.
    + destruct (String.eqb_spec (id f) j) as [E'|_]; [congruence|exact IH].
    + now rewrite IH.
Qed.




(** ** Removals while uploads run *)

Lemma tick_uploads r u sel sel' : fst (tick r u sel) = fst (tick r u sel').
Proof.
  unfold tick. destruct (interval u); [|reflexivity].
  now destruct (Qle_bool 100 (local_progress u + increment r)).
Qed.

Lemma fire_uploads k r us sel sel' :
  fst (fire k r us sel) = fst (fire k r us sel').
Proof.
  revert k. induction us as [|u us IH]; intros [|k]; simpl; try reflexivity.
  - pose proof (tick_uploads r u sel sel') as H.
    destruct (tick r u sel), (tick r u sel'). simpl in *. now rewrite H.
  - specialize (IH k).
    destruct (fire k r us sel), (fire k r us sel'). simpl in *.
    now rewrite IH.
Qed.

Lemma runTimers_uploads events us sel sel' :
  fst (runTimers events us sel) = fst (runTimers events us sel').
Proof.
  revert us sel sel'.
  induction events as [|[k r] events IH]; intros us sel sel'.
  - reflexivity.
  - simpl. pose proof (fire_uploads k r us sel sel') as H.
    destruct (fire k r us sel) as [us1 sel1].
    destruct (fire k r us sel') as [us2 sel2]. simpl in H. subst us2.
    apply IH.
Qed.

Lemma fire_lookup_None k r us sel i :
  lookup i sel = None -> lookup i (snd (fire k r us sel)) = None.
Proof.
  intro H. pose proof (fire_nth k r us sel) as Hf.
  destruct (nth_error us k) as [u|]; [|now rewrite Hf].
  destruct Hf as [_ ->]. unfold tick.
  destruct (interval u); [|exact H].
  destruct (Qle_bool 100 (local_progress u + increment r)); cbn [snd];
    (rewrite lookup_map;
     [now rewrite H|intro f; now destruct (String.eqb (id f) (fileId u))]).
Qed.

Lemma stepEvent_lookup_None e us w i :
  lookup i (selectedFiles (state w)) = None ->
  lookup i (selectedFiles (state (snd (stepEvent e us w)))) = None.
Proof.
  intro H. destruct e as [k r|fileId|]; cbn [stepEvent].
  - pose proof (fire_lookup_None k r us _ i H) as Hf.
    destruct (fire k r us (selectedFiles (state w))) as [us' sel'].
    exact Hf.
  - unfold removeFile, emit, setSelectedFiles. cbn [snd state selectedFiles].
    destruct (String.eqb_spec i fileId) as [->|Hne].
    + apply lookup_filter_out.
    + now rewrite lookup_filter_other.
  - reflexivity.
Qed.

Lemma runEvents_lookup_None events us w i :
  lookup i (selectedFiles (state w)) = None ->
  lookup i (selectedFiles (state (snd (runEvents events us w)))) = None.
Proof.
  revert us w. induction events as [|e events IH]; intros us w H.
  - exact H.
  - cbn [runEvents]. apply (stepEvent_lookup_None e us) in H.
    destruct (stepEvent e us w) as [us' w']. now apply IH.
Qed.

Lemma runEvents_uploads events us w :
  fst (runEvents events us w)
  = fst (runTimers (timersOf events) us (selectedFiles (state w))).
Proof.
  revert us w. induction events as [|e events IH]; intros us w.
  - reflexivity.
  - destruct e as [k r|fileId|]; cbn [runEvents stepEvent timersOf runTimers].
    + destruct (fire k r us (selectedFiles (state w))) as [us' sel'].
      now rewrite IH.
    + rewrite IH. apply runTimers_uploads.
    + rewrite IH. apply runTimers_uploads.
Qed.

(** X9. Timer events interleaved with [removeFile] and [clearAllFiles]:
    an identifier that is not in the collection is in it after no
    sequence of events, so a record that was removed, or cleared, never
    comes back however its timer keeps firing; and the uploads advance
    as if nothing had been removed: removing a record neither stops its
    timer nor keeps its promise from resolving. *)
Theorem removed_record_never_returns
        (events : list Event) (us : list Upload) (w : World) :
  (forall i,
      lookup i (selectedFiles (state w)) = None ->
      lookup i (selectedFiles (state (snd (runEvents events us w)))) = None)
  /\ (forall i,
         lookup i (selectedFiles
                     (state (snd (runEvents (RemoveFile i :: events) us w))))
         = None)
  /\ selectedFiles (state (snd (runEvents (ClearAll :: events) us w))) = []
  /\ fst (runEvents events us w)
     = fst (runTimers (timersOf events) us (selectedFiles (state w))).
Proof.
  split; [intro i; apply runEvents_lookup_None|].
  split; [|split; [|apply runEvents_uploads]].
  - intro i. cbn [runEvents stepEvent]. apply runEvents_lookup_None.
    unfold removeFile, emit, setSelectedFiles. cbn [state selectedFiles].
    apply lookup_filter_out.
  - cbn [runEvents stepEvent].
    assert (H : forall evs us' w',
               selectedFiles (state w') = [] ->
               selectedFiles (state (snd (runEvents evs us' w'))) = []).
    { induction evs as [|e evs IH]; intros us' w' Hw; [exact Hw|].
      cbn [runEvents].
      assert (He : selectedFiles (state (snd (stepEvent e us' w'))) = []).
      { destruct e as [k r|fileId|]; cbn [stepEvent].
        - pose proof (fire_fixedPart k r us' (selectedFiles (state w'))) as Hf.
          destruct (fire k r us' (selectedFiles (state w'))) as [us2 sel2].
          cbn in *. rewrite Hw in Hf. now destruct sel2.
        - cbn. now rewrite Hw.
        - reflexivity. }
      destruct (stepEvent e us' w') as [us2 w2]. now apply IH. }
    now apply H.
Qed.

Lemma removed_record_never_returns_witness :
  lookup "id-9"
         (selectedFiles
            (state (snd (runEvents [TimerFires 0 (1 # 2); RemoveFile "id-0";
                                    TimerFires 0 (1 # 2)]
                                   (map (fun f => simulateUpload (id f))
                                        sampleBatch)
                                   (mkWorld (mkState false sampleBatch true)
                                            [])))))
  = None.
Proof.
  apply (proj1 (removed_record_never_returns
                  [TimerFires 0 (1 # 2); RemoveFile "id-0";
                   TimerFires 0 (1 # 2)]
                  (map (fun f => simulateUpload (id f)) sampleBatch)
                  (mkWorld (mkState false sampleBatch true) []))).
  reflexivity.
Defined.

(** ** What [handleFiles] has done when it returns *)

(** The calls of the loop are the toasts of rejected files, and the
    records it adds are fresh: progress 0, status uploading. *)
Lemma stageLoop_shape props env files newFiles cs r :
  stageLoop props env files newFiles = (cs, r) ->
  Forall (fun c => exists file,
              In file files
              /\ file_size file > maxFileSize props * 1024 * 1024
              /\ c = ToastCall (tooLargeToast props file)) cs
  /\ forall out,
      r = Resolved out ->
      exists added,
        out = newFiles ++ added
        /\ Forall (fun g => progress g = 0%Q /\ status g = uploading) added.
Proof.
  revert newFiles cs r.
  induction files as [|file files IH]; intros newFiles cs r H.
  - cbn in H. injection H as <- <-. split; [constructor|].
    intros out [= <-]. exists []. split; [now rewrite app_nil_r|constructor].
  - cbn [stageLoop] in H. unfold validateFile in H.
    destruct (Z.gtb_spec (file_size file) (maxFileSize props * 1024 * 1024))
      as [Hbig|Hok].
    + destruct (stageLoop props env files newFiles) as [cs' r'] eqn:E.
      injection H as <- <-. destruct (IH _ _ _ E) as [Hcs Hout].
      split; [|exact Hout].
      constructor.
      * exists file. split; [now left|]. split; [lia|reflexivity].
      * eapply Forall_impl; [|exact Hcs].
        intros c (f & Hin & Hf & Hc). exists f. split; [now right|]. now split.
    + destruct (generatePreview env file) as [preview_|].
      * destruct (stageLoop props env files _) as [cs' r'] eqn:E.
        injection H as <- <-. destruct (IH _ _ _ E) as [Hcs Hout].
        split.
        -- eapply Forall_impl; [|exact Hcs].
           intros c (f & Hin & Hf & Hc). exists f.
           split; [now right|]. now split.
        -- intros out Hr. destruct (Hout out Hr) as (added & -> & Hfresh).
           eexists. rewrite <- app_assoc. split; [reflexivity|].
           constructor; [now split|exact Hfresh].
      * injection H as <- <-. split; [constructor|discriminate].
Qed.


(** The calls of a [handleFiles] that has returned, and the records it
    handed over. *)
Lemma handleFiles_returned props env files w :
  snd (handleFiles props env (Some files) w) = Resolved tt ->
  exists cs newFiles,
    stageLoop props env files [] = (cs, Resolved newFiles)
    /\ calls (fst (handleFiles props env (Some files) w))
       = calls w ++ cs
           ++ [OnFileSelect newFiles; ToastCall (completedToast newFiles)]
    /\ Forall (fun g => progress g = 0%Q /\ status g = uploading) newFiles.
Proof.
  intro Hret.
  destruct (stageLoop props env files []) as [cs [newFiles|]] eqn:Hloop.
  - destruct (stageLoop_shape _ _ _ _ _ _ Hloop) as [_ Hout].
    destruct (Hout newFiles eq_refl) as (added & Hadded & Hfresh).
    cbn [app] in Hadded. subst added.
    exists cs, newFiles. split; [reflexivity|]. split; [|exact Hfresh].
    rewrite handleFiles_Some, Hloop in *.
    destruct (runTimers _ _ _) as [uploads sel].
    destruct (forallb resolved uploads); [reflexivity|discriminate].
  - rewrite handleFiles_Some, Hloop in Hret. discriminate.
Qed.




(** X12. [onFileSelect] waits for the whole batch. While [handleFiles]
    has not returned, [isUploading] is set and the only calls made are
    the "File too large" toasts of rejected files; when it has returned,
    [isUploading] is unset, and after those toasts came one call of
    [onFileSelect] and then the toast "Upload completed". *)
Theorem onFileSelect_waits_for_the_batch
        (props : Props) (env : Env) (files : list File) (w : World) :
  let outcome := handleFiles props env (Some files) w in
  exists cs,
    Forall (fun c => exists file,
                In file files
                /\ file_size file > maxFileSize props * 1024 * 1024
                /\ c = ToastCall (tooLargeToast props file)) cs
    /\ ((snd outcome = Pending
         /\ isUploading (state (fst outcome)) = true
         /\ calls (fst outcome) = calls w ++ cs)
        \/ (snd outcome = Resolved tt
            /\ isUploading (state (fst outcome)) = false
            /\ exists newFiles,
                calls (fst outcome)
                = calls w ++ cs
                    ++ [OnFileSelect newFiles;
                        ToastCall (completedToast newFiles)])).
Proof.
  intro outcome. subst outcome. rewrite handleFiles_Some.
  destruct (stageLoop props env files []) as [cs r] eqn:Hloop.
  destruct (stageLoop_shape _ _ _ _ _ _ Hloop) as [Hcs _].
  exists cs. split; [exact Hcs|].
  destruct r as [newFiles|].
  - destruct (runTimers _ _ _) as [uploads sel].
    destruct (forallb resolved uploads).
    + right. repeat split. now exists newFiles.
    + left. now repeat split.
  - left. now repeat split.
Qed.

End FileUploadMore.

(** * Properties of ChatInput.tsx *)

Module ChatInputFacts.

Import JS ChatInput FileUploadFacts FileUploadMore.

(** ** Trimming *)

Lemma trimStart_head s :
  trimStart s = ""
  \/ exists c t, trimStart s = String c t /\ isWhiteSpace c = false.
Proof.
  induction s as [|c s IH]; simpl.
  - now left.
  - destruct (isWhiteSpace c) eqn:E; [exact IH|].
    right. now exists c, s.
Qed.

Lemma trimEnd_head c t :
  isWhiteSpace c = false -> exists t', trimEnd (String c t) = String c t'.
Proof.
  intro H. simpl. destruct (trimEnd t); rewrite ?H; eexists; reflexivity.
Qed.

Lemma trimEnd_cons c s :
  trimEnd (String c s)
  = match trimEnd s with
    | EmptyString =>
        if isWhiteSpace c then EmptyString else String c EmptyString
    | String d t => String c (String d t)
    end.
Proof. reflexivity. Qed.

Lemma trimEnd_idempotent s : trimEnd (trimEnd s) = trimEnd s.
Proof.
  induction s as [|c s IH]; [reflexivity|].
  rewrite (trimEnd_cons c s).
  destruct (trimEnd s) as [|d t] eqn:E.
  - destruct (isWhiteSpace c) eqn:Hc; [reflexivity|].
    rewrite trimEnd_cons. cbn [trimEnd]. now rewrite Hc.
  - rewrite trimEnd_cons, IH. reflexivity.
Qed.

Lemma trimStart_whitespace s :
  (forall c, In c (list_ascii_of_string s) -> isWhiteSpace c = true) ->
  trimStart s = "".
Proof.
  induction s as [|c s IH]; simpl; intro H.
  - reflexivity.
  - rewrite (H c (or_introl eq_refl)). apply IH.
    intros d Hd. apply H. now right.
Qed.

Lemma trim_idempotent s : trim (trim s) = trim s.
Proof.
  unfold trim.
  destruct (trimStart_head s) as [->|(c & t & -> & Hc)].
  - reflexivity.
  - destruct (trimEnd_head c t Hc) as [t' Ht']. rewrite Ht'.
    cbn [trimStart]. rewrite Hc, <- Ht'. apply trimEnd_idempotent.
Qed.

Lemma truthy_iff s : truthy s = true <-> s <> "".
Proof. destruct s; simpl; split; congruence. Qed.

(** ** Sending *)

(** X13. [handleSend] does nothing when the message trims to the empty
    string, as a message of white space does, and no file is attached.
    Otherwise it calls [onSendMessage] once, with the trimmed message,
    which trimming again would not change, and with all the attached
    files whatever their status, and it empties the message and the
    attachments and closes the upload dialog. The Enter key without
    shift does the same after [preventDefault]; any other key, and Enter
    with shift, does nothing. *)
Theorem handleSend_sends_trimmed_message (st : State) :
  (trim (message st) = "" -> attachedFiles st = [] ->
   handleSend st = (st, []))
  /\ (trim (message st) <> "" \/ attachedFiles st <> [] ->
      handleSend st
      = (mkState "" [] false,
         [OnSendMessage (trim (message st)) (attachedFiles st)]))
  /\ trim (trim (message st)) = trim (message st)
  /\ ((forall c, In c (list_ascii_of_string (message st)) ->
                 isWhiteSpace c = true) ->
      trim (message st) = "")
  /\ handleKeyPress "Enter" false st
     = (fst (handleSend st), PreventDefault :: snd (handleSend st))
  /\ (forall key shiftKey,
         key <> "Enter" \/ shiftKey = true ->
         handleKeyPress key shiftKey st = (st, [])).
Proof.
  split; [|split; [|split; [|split; [|split]]]].
  - intros Hm Hf. unfold handleSend. now rewrite Hm, Hf.
  - intros H. unfold handleSend.
    destruct (truthy (trim (message st))) eqn:Ht; [reflexivity|].
    destruct (attachedFiles st) as [|f l]; [|reflexivity].
    exfalso. destruct H as [H|H]; [|congruence].
    apply truthy_iff in H. congruence.
  - apply trim_idempotent.
  - intro H. unfold trim. now rewrite (trimStart_whitespace _ H).
  - unfold handleKeyPress. cbn. now destruct (handleSend st).
  - intros key shiftKey H. unfold handleKeyPress.
    destruct (String.eqb_spec key "Enter") as [->|_]; [|reflexivity].
    destruct H as [H| ->]; [congruence|reflexivity].
Qed.

Lemma handleSend_sends_trimmed_message_witness :
  handleSend (mkState "  hello  " [] true)
  = (mkState "" [] false, [OnSendMessage "hello" []])
  /\ handleSend (mkState "   " [] true) = (mkState "   " [] true, []).
Proof.
  split.
  - apply (handleSend_sends_trimmed_message (mkState "  hello  " [] true)).
    left. discriminate.
  - apply (handleSend_sends_trimmed_message (mkState "   " [] true));
      reflexivity.
Defined.

(** ** Attachments from the upload component *)

Lemma uploading_all l :
  Forall (fun g => FileUpload.progress g = 0%Q
                   /\ FileUpload.status g = FileUpload.uploading) l ->
  filter isUploadingFile l = l /\ filter isCompleted l = [].
Proof.
  induction 1 as [|g l [_ Hs] _ [IH1 IH2]]; [now split|].
  simpl. unfold isUploadingFile, isCompleted. rewrite Hs.
  fold isUploadingFile isCompleted. now rewrite IH1, IH2.
Qed.

(** X14. The chat input passes [handleFileSelect] to the upload
    component as [onFileSelect]. The batch that a returning [handleFiles]
    hands over, when it is not empty, is appended to the attachments
    with every record marked uploading, so the send button is disabled
    from then on whatever the message; the Enter key still sends the
    message with all the attachments. *)
Theorem attachments_disable_send_button
        (props : FileUpload.Props) (env : FileUpload.Env)
        (files : list FileUpload.File) (w : FileUpload.World)
        (batch : list FileUpload.FileWithProgress)
        (st : State) (disabled : bool) :
  FileUpload.calls w = [] ->
  snd (FileUpload.handleFiles props env (Some files) w) = Resolved tt ->
  In (FileUpload.OnFileSelect batch)
     (FileUpload.calls
        (fst (FileUpload.handleFiles props env (Some files) w))) ->
  batch <> [] ->
  let st' := handleFileSelect batch st in
  attachedFiles st' = attachedFiles st ++ batch
  /\ sendDisabled disabled st' = true
  /\ handleKeyPress "Enter" false st'
     = (mkState "" [] false,
        [PreventDefault;
         OnSendMessage (trim (message st)) (attachedFiles st ++ batch)]).
Proof.
  intros Hw Hret Hin Hne st'. subst st'.
  destruct (handleFiles_returned props env files w Hret)
    as (cs & newFiles & Hloop & Hcalls & Hfresh).
  assert (Hbatch : batch = newFiles).
  { rewrite Hcalls, Hw in Hin. cbn [app] in Hin.
    apply in_app_or in Hin as [Hin|[Hin|[Hin|[]]]].
    - destruct (stageLoop_shape _ _ _ _ _ _ Hloop) as [Hcs _].
      rewrite Forall_forall in Hcs.
      destruct (Hcs _ Hin) as (f & _ & _ & Hc). discriminate Hc.
    - now injection Hin.
    - discriminate Hin. }
  subst newFiles.
  destruct (uploading_all batch Hfresh) as [Hup _].
  split; [reflexivity|]. split.
  - unfold sendDisabled, uploadingFiles, handleFileSelect.
    cbn [attachedFiles]. rewrite filter_app, Hup, length_app.
    destruct batch as [|g batch]; [congruence|].
    cbn [List.length]. rewrite Nat.add_succ_r.
    cbn [Nat.ltb Nat.leb]. apply orb_true_r.
  - unfold handleKeyPress, handleSend, handleFileSelect.
    cbn [String.eqb Ascii.eqb Bool.eqb andb negb message attachedFiles].
    rewrite length_app. destruct batch as [|g batch]; [congruence|].
    cbn [List.length]. rewrite Nat.add_succ_r.
    cbn [Nat.ltb Nat.leb]. now rewrite orb_true_r.
Qed.

Lemma attachments_disable_send_button_witness :
  sendDisabled false
               (handleFileSelect FileUpload.sampleBatch
                                 (mkState "hello" [] true))
  = true.
Proof.
  apply (attachments_disable_send_button
           FileUpload.defaultProps FileUpload.loadingEnv
           [FileUpload.photo; FileUpload.movie; FileUpload.notes]
           FileUpload.emptyWorld FileUpload.sampleBatch
           (mkState "hello" [] true) false).
  - reflexivity.
  - reflexivity.
  - simpl. right. left. reflexivity.
  - discriminate.
Defined.

End ChatInputFacts.

(** * Properties of the earlier upload component *)

Module FileUploadV1Facts.

Import JS FileUploadV1.

Lemma validateAll_filter props files validFiles :
  validateAll props files validFiles
  = (map (fun file => ToastCall (tooLargeToast props file))
         (filter (fun file => negb (accepted props file)) files),
     validFiles ++ filter (accepted props) files).
Proof.
  revert validFiles. induction files as [|file files IH]; intro validFiles.
  - simpl. now rewrite app_nil_r.
  - cbn [validateAll filter].
    assert (Hacc : accepted props file = fst (validateFile props file))
      by reflexivity.
    rewrite Hacc. unfold validateFile.
    destruct (FileUpload.file_size file >? maxFileSize props * 1024 * 1024);
      cbn [fst negb]; rewrite IH.
    + reflexivity.
    + now rewrite <- app_assoc.
Qed.

(** X15. The earlier [handleFiles] validates every file of the batch: it
    raises one "File too large" toast for each rejected file, in the
    order of the batch. When no file is accepted it does nothing else:
    the collection stays as it is, also without [multiple], and
    [onFileSelect] is not called. Otherwise the accepted files, in the
    order of the batch, are appended to the collection, or replace it
    without [multiple], and [onFileSelect] is called once with them,
    before the toast "Files uploaded" that counts them. *)
Theorem earlier_handleFiles_skips_empty_batches
        (props : Props) (files : list FileUpload.File) (w : World) :
  let validFiles := filter (accepted props) files in
  let toasts :=
    map (fun file => ToastCall (tooLargeToast props file))
        (filter (fun file => negb (accepted props file)) files) in
  (validFiles = [] ->
   handleFiles props (Some files) w = mkWorld (state w) (calls w ++ toasts))
  /\ (validFiles <> [] ->
      handleFiles props (Some files) w
      = mkWorld
          (mkState (dragActive (state w))
                   (if multiple props
                    then selectedFiles (state w) ++ validFiles
                    else validFiles))
          (calls w ++ toasts
             ++ [OnFileSelect validFiles;
                 ToastCall (uploadedToast validFiles)])).
Proof.
  intros validFiles toasts. subst validFiles toasts.
  unfold handleFiles. rewrite validateAll_filter. cbn [app].
  destruct (filter (accepted props) files) as [|f l]; split; intro H;
    try congruence; reflexivity.
Qed.

Lemma earlier_handleFiles_skips_empty_batches_witness :
  handleFiles defaultProps (Some [FileUpload.movie; FileUpload.movie])
              (mkWorld (mkState false [FileUpload.notes]) [])
  = mkWorld (mkState false [FileUpload.notes])
            [ToastCall (mkToast "File too large"
                                "movie.mp4 exceeds 10MB limit"
                                (Some "destructive"));
             ToastCall (mkToast "File too large"
                                "movie.mp4 exceeds 10MB limit"
                                (Some "destructive"))].
Proof.
  apply (earlier_handleFiles_skips_empty_batches
           defaultProps [FileUpload.movie; FileUpload.movie]
           (mkWorld (mkState false [FileUpload.notes]) [])).
  reflexivity.
Defined.

Lemma filterIndexed_remove {A} (index start : nat) (l : list A) :
  (start <= index)%nat ->
  filterIndexed (fun i => negb (Nat.eqb i index)) start l
  = firstn (index - start) l ++ skipn (S (index - start)) l.
Proof.
  revert start. induction l as [|x l IH]; intros start Hle.
  - cbn [filterIndexed]. now rewrite firstn_nil, skipn_nil.
  - cbn [filterIndexed]. destruct (Nat.eqb_spec start index) as [->|Hne].
    + cbn [negb]. rewrite Nat.sub_diag. cbn [firstn skipn app].
      clear IH Hle. revert x.
      assert (H : forall (m : list A) s, (index < s)%nat ->
                    filterIndexed (fun i => negb (Nat.eqb i index)) s m = m).
      { induction m as [|y m IHm]; intros s Hs; cbn [filterIndexed].
        - reflexivity.
        - destruct (Nat.eqb_spec s index); [lia|]. cbn [negb].
          rewrite IHm by lia. reflexivity. }
      intros _. apply H. lia.
    + cbn [negb]. rewrite IH by lia.
      replace (index - start)%nat with (S (index - S start)) by lia.
      reflexivity.
Qed.

(** X16. The earlier [removeFile] removes the file at the given position
    and no other: the files before it and after it keep their order. A
    position past the end of the list removes nothing. *)
Theorem earlier_removeFile_removes_one_position (index : nat) (w : World) :
  selectedFiles (state (removeFile index w))
  = firstn index (selectedFiles (state w))
      ++ skipn (S index) (selectedFiles (state w))
  /\ ((List.length (selectedFiles (state w)) <= index)%nat ->
      selectedFiles (state (removeFile index w)) = selectedFiles (state w))
  /\ ((index < List.length (selectedFiles (state w)))%nat ->
      S (List.length (selectedFiles (state (removeFile index w))))
      = List.length (selectedFiles (state w)))
  /\ calls (removeFile index w) = calls w.
Proof.
  assert (Heq : selectedFiles (state (removeFile index w))
                = firstn index (selectedFiles (state w))
                    ++ skipn (S index) (selectedFiles (state w))).
  { unfold removeFile. cbn [state selectedFiles].
    rewrite (filterIndexed_remove index 0) by lia.
    now rewrite Nat.sub_0_r. }
  split; [exact Heq|]. split; [|split; [|reflexivity]].
  - intro Hlen. rewrite Heq, firstn_all2, skipn_all2 by lia.
    apply app_nil_r.
  - intro Hlt. rewrite Heq, length_app, length_firstn, length_skipn. lia.
Qed.

Lemma earlier_removeFile_removes_one_position_witness :
  selectedFiles
    (state (removeFile 5 (mkWorld (mkState false [FileUpload.notes]) [])))
  = [FileUpload.notes].
Proof.
  destruct (earlier_removeFile_removes_one_position
              5 (mkWorld (mkState false [FileUpload.notes]) []))
    as (_ & Hpast & _).
  apply Hpast. simpl. lia.
Defined.

End FileUploadV1Facts.

(** * Properties of the file analysis of the chatbot *)

Module CosmicChatbotFacts.

Import JS CosmicChatbot.

Lemma getCount_setCount type n type' fileTypes :
  getCount type' (setCount type n fileTypes)
  = if String.eqb type type' then n else getCount type' fileTypes.
Proof.
  induction fileTypes as [|[key count] rest IH]; simpl.
  - reflexivity.
  - destruct (String.eqb_spec key type) as [->|Hne]; simpl.
    + destruct (String.eqb_spec type type'); reflexivity.
    + destruct (String.eqb_spec key type') as [->|_]; [|exact IH].
      destruct (String.eqb_spec type type'); [congruence|reflexivity].
Qed.

Lemma setCount_keys type n fileTypes :
  map fst (setCount type n fileTypes)
  = if existsb (String.eqb type) (map fst fileTypes)
    then map fst fileTypes
    else map fst fileTypes ++ [type].
Proof.
  induction fileTypes as [|[key count] rest IH]; simpl.
  - reflexivity.
  - rewrite (String.eqb_sym type key).
    destruct (String.eqb key type); simpl; [reflexivity|].
    rewrite IH. now destruct (existsb (String.eqb type) (map fst rest)).
Qed.

Lemma setCount_NoDup type n fileTypes :
  NoDup (map fst fileTypes) -> NoDup (map fst (setCount type n fileTypes)).
Proof.
  intro H. rewrite setCount_keys.
  destruct (existsb (String.eqb type) (map fst fileTypes)) eqn:E;
    [exact H|].
  apply NoDup_app; [exact H|repeat constructor; intros []|].
  intros key Hkey [<-|[]].
  assert (Hex : existsb (String.eqb type) (map fst fileTypes) = true).
  { apply existsb_exists. exists type. split; [exact Hkey|].
    apply String.eqb_refl. }
  congruence.
Qed.

Lemma setCount_positive type n fileTypes :
  (1 <= n)%nat ->
  Forall (fun entry => 1 <= snd entry)%nat fileTypes ->
  Forall (fun entry => 1 <= snd entry)%nat (setCount type n fileTypes).
Proof.
  intros Hn. induction 1 as [|[key count] rest He Hrest IH]; simpl.
  - now repeat constructor.
  - destruct (String.eqb key type); constructor; simpl; auto.
Qed.

Lemma setCount_total type fileTypes :
  list_sum (map snd (setCount type (getCount type fileTypes + 1) fileTypes))
  = S (list_sum (map snd fileTypes)).
Proof.
  induction fileTypes as [|[key count] rest IH]; simpl.
  - reflexivity.
  - destruct (String.eqb key type); simpl; [lia|].
    unfold list_sum in *. simpl in *. lia.
Qed.

(** The loop, from any object reached so far. *)
Lemma countTypes_from files fileTypes :
  NoDup (map fst fileTypes) ->
  Forall (fun entry => 1 <= snd entry)%nat fileTypes ->
  NoDup (map fst (fold_left countFile files fileTypes))
  /\ Forall (fun entry => 1 <= snd entry)%nat
            (fold_left countFile files fileTypes)
  /\ list_sum (map snd (fold_left countFile files fileTypes))
     = (list_sum (map snd fileTypes) + List.length files)%nat
  /\ forall type,
      getCount type (fold_left countFile files fileTypes)
      = (getCount type fileTypes
         + List.length
             (filter (fun file => String.eqb (getFileCategory file) type)
                     files))%nat.
Proof.
  revert fileTypes.
  induction files as [|file files IH]; intros fileTypes Hnd Hpos.
  - cbn. repeat split; auto.
  - cbn [fold_left].
    destruct (IH (countFile fileTypes file)) as (H1 & H2 & H3 & H4).
    + now apply setCount_NoDup.
    + apply setCount_positive; [lia|exact Hpos].
    + split; [exact H1|]. split; [exact H2|]. split.
      * rewrite H3. unfold countFile. rewrite setCount_total.
        cbn [List.length]. lia.
      * intro type'. rewrite H4. unfold countFile.
        rewrite getCount_setCount. cbn [filter].
        destruct (String.eqb_spec (getFileCategory file) type') as [<-|_];
          cbn [List.length]; lia.
Qed.

(** X17. The file analysis of the chatbot counts the files by category:
    every category is listed once, with the number of files of that
    category; every listed count is at least 1, and the counts add up
    to the number of files. A category that no file has is not listed,
    and for no file at all the analysis is the empty string. *)
Theorem analyzeFiles_counts_every_file
        (files : list FileUpload.FileWithProgress) :
  NoDup (map fst (countTypes files))
  /\ Forall (fun entry => 1 <= snd entry)%nat (countTypes files)
  /\ list_sum (map snd (countTypes files)) = List.length files
  /\ (forall type,
         getCount type (countTypes files)
         = List.length
             (filter (fun file => String.eqb (getFileCategory file) type)
                     files))
  /\ (forall type count,
         In (type, count) (countTypes files) ->
         count
         = List.length
             (filter (fun file => String.eqb (getFileCategory file) type)
                     files))
  /\ analyzeFiles [] = "".
Proof.
  destruct (countTypes_from files []) as (H1 & H2 & H3 & H4);
    [constructor|constructor|].
  fold (countTypes files) in *.
  cbn [getCount map list_sum fold_right Nat.add] in H3, H4.
  split; [exact H1|]. split; [exact H2|]. split; [exact H3|].
  split; [exact H4|]. split; [|reflexivity].
  intros type count Hin. rewrite <- H4.
  clear H2 H3 H4. induction (countTypes files) as [|[key n] rest IH].
  - destruct Hin.
  - cbn [map fst] in H1. inversion H1 as [|? ? Hkey Hrest]; subst.
    cbn [getCount]. destruct Hin as [[= -> ->]|Hin].
    + now rewrite String.eqb_refl.
    + destruct (String.eqb_spec key type) as [->|_]; [|now apply IH].
      exfalso. apply Hkey. change type with (fst (type, count)).
      now apply in_map.
Qed.

Lemma analyzeFiles_counts_every_file_witness :
  1%nat
  = List.length
      (filter (fun file => String.eqb (getFileCategory file) "image")
              FileUpload.sampleBatch)
  /\ analyzeFiles FileUpload.sampleBatch = "1 image, 1 file".
Proof.
  split; [|reflexivity].
  destruct (analyzeFiles_counts_every_file FileUpload.sampleBatch)
    as (_ & _ & _ & _ & Hentry & _).
  apply (Hentry "image" 1%nat). simpl. now left.
Defined.

(** X18. The classifier of the chatbot and the classifier of the file
    manager put a mime type in the same class; they differ in two
    labels only: the chatbot writes "PDF" for "pdf" and "file" for
    "other". *)
Theorem chatbot_and_manager_classify_alike
        (staged : FileUpload.FileWithProgress)
        (managed : FileManager.FileWithProgress) :
  FileUpload.type staged = FileManager.type managed ->
  getFileCategory staged
  = chatbotLabel (FileManager.getFileCategory managed)
  /\ (getFileCategory staged = "PDF" <->
      FileManager.getFileCategory managed = "pdf")
  /\ (getFileCategory staged = "file" <->
      FileManager.getFileCategory managed = "other").
Proof.
  intro Htype. unfold getFileCategory, FileManager.getFileCategory.
  rewrite Htype.
  destruct (startsWith (FileManager.type managed) "image/");
    [repeat split; intros; try discriminate; reflexivity|].
  destruct (startsWith (FileManager.type managed) "video/");
    [repeat split; intros; try discriminate; reflexivity|].
  destruct (startsWith (FileManager.type managed) "audio/");
    [repeat split; intros; try discriminate; reflexivity|].
  destruct (includes (FileManager.type managed) "pdf");
    [repeat split; intros; try discriminate; reflexivity|].
  destruct (includes (FileManager.type managed) "doc");
    [repeat split; intros; try discriminate; reflexivity|].
  destruct (includes (FileManager.type managed) "zip"
            || includes (FileManager.type managed) "rar");
    repeat split; intros; try discriminate; reflexivity.
Qed.

Lemma chatbot_and_manager_classify_alike_witness :
  getFileCategory (FileUpload.staged FileUpload.notes "id-1" None) = "file".
Proof.
  destruct (chatbot_and_manager_classify_alike
              (FileUpload.staged FileUpload.notes "id-1" None)
              (FileManager.sample "n" "notes.txt" 2048 "text/plain" None)
              eq_refl) as (_ & _ & Hfile).
  apply Hfile. reflexivity.
Defined.

End CosmicChatbotFacts.
